(** * pdf2docx.font.Fonts: font family names and line-height ratios

    A shallow embedding of [pdf2docx/font/Fonts.py].  Python [str] values are
    sequences of Unicode code points, [bytes] are sequences of octets, [int]s
    are unbounded integers and [float]s are IEEE-754 binary64 numbers; a
    function that can raise returns a [result]. *)

From stdpp Require Import gmap.
From Stdlib Require Import ZArith NArith List String Ascii Floats Lia Bool.
From Stdlib.Strings Require Import Byte.
From Stdlib Require Uint63.
Import ListNotations.

Local Open Scope Z_scope.

(* The decimal literals 1.2, 1.3 and 1.18 denote the nearest binary64 numbers,
   as they do in Python. *)
Set Warnings "-inexact-float".

(** * Part I: the program *)

(** ** Python values *)

(** A [str] is a sequence of code points. *)
Abbreviation str := (list N).

(** A [bytes] object is a sequence of octets. *)
Abbreviation bytes := (list byte).

(** Code points of an ASCII literal, to write the names of the examples. *)
Definition u (s : string) : str :=
  List.map N_of_ascii (list_ascii_of_string s).

Definition PLUS : N := 43%N.
Definition DASH : N := 45%N.
Definition SPACE : N := 32%N.

(** The exceptions that the module's code can meet.  [OtherError] stands for
    whatever the font library raises that is not a [TTLibError]. *)
Inductive exn : Type :=
| TTLibError
| OtherError
| KeyError
| AttributeError
| TypeError
| OverflowError
| ZeroDivisionError
| UnicodeDecodeError.

Inductive result (A : Type) : Type :=
| Ok (a : A)
| Raise (e : exn).
Arguments Ok {A} a.
Arguments Raise {A} e.

Definition bind {A B} (r : result A) (k : A -> result B) : result B :=
  match r with
  | Ok a => k a
  | Raise e => Raise e
  end.

Notation "'let*' x ':=' r 'in' k" := (bind r (fun x => k))
  (at level 10, x name, r at level 100, k at level 200).

Definition returns {A} (r : result A) : Prop := exists a, r = Ok a.

(** *** [str] methods *)

(** [s.split(sep)] with a one-character separator.  It never returns an empty
    list: a string without [sep] gives the one-element list [[s]]. *)
Fixpoint split (sep : N) (s : str) : list str :=
  match s with
  | [] => [[]]
  | c :: s' =>
      if N.eqb c sep then [] :: split sep s'
      else match split sep s' with
           | seg :: rest => (c :: seg) :: rest
           | [] => [[c]]
           end
  end.

(** [l[-1]] and [l[0]] on the non-empty lists that [split] returns. *)
Definition item_last (l : list str) : str := List.last l [].
Definition item_first (l : list str) : str := List.hd [] l.

(** [s.replace(' ', '')] *)
Definition remove_spaces (s : str) : str :=
  List.filter (fun c => negb (N.eqb c SPACE)) s.

(** [a in b] on strings: [a] occurs in [b] as a contiguous block. *)
Fixpoint starts_with (a b : str) : bool :=
  match a, b with
  | [], _ => true
  | _ :: _, [] => false
  | x :: a', y :: b' => N.eqb x y && starts_with a' b'
  end.

Fixpoint str_in (a b : str) : bool :=
  starts_with a b ||
  match b with
  | [] => false
  | _ :: b' => str_in a b'
  end.

(** *** [bytes.decode] *)

(** [b.decode('latin-1')]: every octet is its own code point. *)
Definition decode_latin_1 (b : bytes) : str := List.map Byte.to_N b.

Definition is_high_surrogate (w : N) : bool := (55296 <=? w)%N && (w <=? 56319)%N.
Definition is_low_surrogate (w : N) : bool := (56320 <=? w)%N && (w <=? 57343)%N.
Definition code_unit (hi lo : byte) : N := (256 * Byte.to_N hi + Byte.to_N lo)%N.

(** [b.decode('utf-16-be')] with the default strict error handling: an odd
    number of octets, a lone surrogate or a high surrogate at the end of the
    data raise [UnicodeDecodeError]. *)
Fixpoint decode_utf_16_be (b : bytes) : result str :=
  match b with
  | [] => Ok []
  | [_] => Raise UnicodeDecodeError
  | b1 :: b2 :: rest =>
      let w := code_unit b1 b2 in
      if is_low_surrogate w then Raise UnicodeDecodeError
      else if is_high_surrogate w then
        match rest with
        | b3 :: b4 :: rest' =>
            let w' := code_unit b3 b4 in
            if is_low_surrogate w' then
              let* s := decode_utf_16_be rest' in
              Ok ((65536 + 1024 * (w - 55296) + (w' - 56320))%N :: s)
            else Raise UnicodeDecodeError
        | _ => Raise UnicodeDecodeError
        end
      else
        let* s := decode_utf_16_be rest in
        Ok (w :: s)
  end.

(** *** [int] to [float]

    The conversion that [1.3*n], [1.0*n] and [x / n] apply to an [int] operand:
    the nearest binary64 number, ties to even, and [OverflowError] when the
    integer is too large. *)
Definition nearest_float (z : Z) : float :=
  if Z.abs z <? 9007199254740992 then
    (* below 2^53 the integer is a binary64 number itself *)
    if z <? 0 then PrimFloat.opp (PrimFloat.of_uint63 (Uint63.of_Z (- z)))
    else PrimFloat.of_uint63 (Uint63.of_Z z)
  else SF2Prim (binary_normalize prec emax z 0 false).

Definition float_of_int (z : Z) : result float :=
  let f := nearest_float z in
  if PrimFloat.is_infinity f then Raise OverflowError else Ok f.

(** [x / n] for a float [x] and an int [n]. *)
Definition float_div_int (x : float) (n : Z) : result float :=
  let* d := float_of_int n in
  if n =? 0 then Raise ZeroDivisionError else Ok (PrimFloat.div x d).

(** ** The font library's objects (fontTools)

    A [TTFont] as the module sees it: the four tables it reads, each present
    or not and given as the library decodes it, and what [getBestCmap()]
    returns, a dictionary from code point to glyph name or [None] when the
    character map of the font has no Unicode subtable.  An OS/2 table of
    version 0 has no [ulCodePageRange1] attribute.  What the library raises
    when a table that is present cannot be decoded, or when [getBestCmap()]
    finds no character map table at all, is not described. *)
Record NameRecord := {
  nameID : Z;
  string_ : bytes
}.

Record table_name := { names : list NameRecord }.
Record table_hhea := { ascent : Z; descent : Z; lineGap : Z }.
Record table_head := { unitsPerEm : Z }.
Record table_OS2 := {
  ulCodePageRange1 : option Z;
  ulUnicodeRange1 : Z;
  ulUnicodeRange2 : Z;
  ulUnicodeRange3 : Z
}.

Record TTFont := {
  tbl_name : option table_name;
  tbl_hhea : option table_hhea;
  tbl_head : option table_head;
  tbl_OS2 : option table_OS2;
  getBestCmap : option (gmap Z str)
}.

(** [tt_font[key]]: [KeyError] when the table is not there. *)
Definition getitem {T} (tbl : option T) : result T :=
  match tbl with
  | Some t => Ok t
  | None => Raise KeyError
  end.

(** [table.attribute]: [AttributeError] when the table has no such
    attribute. *)
Definition getattr {T} (attribute : option T) : result T :=
  match attribute with
  | Some v => Ok v
  | None => Raise AttributeError
  end.

(** [tt_font.has_key(key)] *)
Definition has_key {T} (tbl : option T) : bool :=
  match tbl with
  | Some _ => true
  | None => false
  end.

(** [x in cmap]: [TypeError] when [cmap] is [None]. *)
Definition cmap_contains (cmap : option (gmap Z str)) (x : Z) : result bool :=
  match cmap with
  | None => Raise TypeError
  | Some d => Ok (match d !! x with Some _ => true | None => false end)
  end.

(** ** The host document (PyMuPDF)

    [page_fonts] lists, page by page, the cross-reference number [f[0]] of
    every entry of [page.get_fonts()]; [extract_font xref] gives the
    [basename], [ext] and [buffer] of [fitz_doc.extract_font(xref)]. *)
Record Document := {
  page_fonts : list (list Z);
  extract_font : Z -> str * str * bytes
}.

(** ** [Font = namedtuple('Font', ['name','line_height'])] *)
Record Font := {
  name : str;
  line_height : float
}.

(** ** [class Fonts] *)
Module Fonts.

(** [Fonts._normalized_font_name]: [name.split('+')[-1].split('-')[0]] *)
Definition _normalized_font_name (name : str) : str :=
  item_first (split DASH (item_last (split PLUS name))).

(** [Fonts._is_valid]; [tt_font] is [None] after a [TTLibError]. *)
Definition _is_valid (tt_font : option TTFont) : bool :=
  match tt_font with
  | None => false
  | Some font =>
      if negb (has_key (tbl_name font)) then false
      else if negb (has_key (tbl_hhea font)) then false
      else if negb (has_key (tbl_head font)) then false
      else if negb (has_key (tbl_OS2 font)) then false
      else true
  end.

(** *** [Fonts.get_font_family_name] *)

Definition FONT_SPECIFIER_NAME_ID : Z := 4.
Definition FONT_SPECIFIER_FAMILY_ID : Z := 1.

(** [b'\x00' in record.string] *)
Definition has_zero_byte (b : bytes) : bool :=
  List.existsb (fun x => Byte.eqb x Byte.x00) b.

Definition decode_record (record : NameRecord) : result str :=
  if has_zero_byte (string_ record) then decode_utf_16_be (string_ record)
  else Ok (decode_latin_1 (string_ record)).

(** A [str] is true in a condition when it is not empty. *)
Definition truthy_str (s : str) : bool :=
  match s with
  | [] => false
  | _ :: _ => true
  end.

(** The body of the loop over the records: the values of [name] and [family]
    after it. *)
Definition record_step (record : NameRecord) (name_str name family : str)
  : str * str :=
  if (nameID record =? FONT_SPECIFIER_NAME_ID) && negb (truthy_str name)
  then (name_str, family)
  else if (nameID record =? FONT_SPECIFIER_FAMILY_ID) && negb (truthy_str family)
  then (name, name_str)
  else (name, family).

Fixpoint scan_records (records : list NameRecord) (name family : str)
  : result (str * str) :=
  match records with
  | [] => Ok (name, family)
  | record :: rest =>
      let* name_str := decode_record record in
      let '(name', family') := record_step record name_str name family in
      if truthy_str name' && truthy_str family' then Ok (name', family')
      else scan_records rest name' family'
  end.

Definition get_font_family_name (tt_font : TTFont) : result str :=
  let* table := getitem (tbl_name tt_font) in
  let* nf := scan_records (names table) [] [] in
  Ok (_normalized_font_name (snd nf)).

(** *** [Fonts.get] *)
Section Get.

(** [str.upper] maps every code point to its full upper-case mapping, one
    code point or several; the table belongs to the language. *)
Variable upper_char : N -> list N.

Definition upper (s : str) : str := List.flat_map upper_char s.

(** [s.replace(' ', '').upper()] *)
Definition normalized (s : str) : str := upper (remove_spaces s).

Fixpoint get_scan (fonts : list Font) (normalized_font_name font_name : str)
  : Font :=
  match fonts with
  | [] => {| name := font_name; line_height := 1.2 |}
  | font :: rest =>
      let name := normalized (name font) in
      if str_in normalized_font_name name || str_in name normalized_font_name
      then font
      else get_scan rest normalized_font_name font_name
  end.

Definition get (self : list Font) (font_name : str) : Font :=
  get_scan self (normalized font_name) font_name.

End Get.

(** *** [Fonts.is_cjk_font], [Fonts.get_line_height_factor], [Fonts.extract] *)
Section Extract.

Variable upper_char : N -> list N.

(** The tables of [common/constants.py]: dictionaries from a label to a bit
    index, a list of inclusive code-point ranges, and the line heights of
    the base fonts.  A dictionary is listed in the order of its items. *)
Variable CJK_CODEPAGE_BITS : list (str * N).
Variable CJK_UNICODE_RANGE_BITS : list (str * N).
Variable CJK_UNICODE_RANGES : list (Z * Z).
Variable DICT_FONT_LINE_HEIGHT : list (str * float).

(** [TTFont(io.BytesIO(buffer))]: the font, or the exception raised. *)
Variable open_TTFont : bytes -> result TTFont.

(** The order in which a [set] that was filled by the given sequence of
    [add] calls is iterated. *)
Variable set_iter : list Z -> list Z.

(** [word & (1 << bit)] as a condition. *)
Definition bit_set (word : Z) (bit : Z) : bool :=
  negb (Z.land word (Z.shiftl 1 bit) =? 0).

Fixpoint code_page_check (os2 : table_OS2) (bits : list (str * N))
  : result bool :=
  match bits with
  | [] => Ok false
  | (_, bit) :: rest =>
      let* word := getattr (ulCodePageRange1 os2) in
      if bit_set word (Z.of_N bit) then Ok true
      else code_page_check os2 rest
  end.

Definition in_range (bit lo hi : Z) : bool := (lo <=? bit) && (bit <? hi).

Definition unicode_range_bit (os2 : table_OS2) (bit : Z) : bool :=
  if in_range bit 0 32 then bit_set (ulUnicodeRange1 os2) bit
  else if in_range bit 32 64 then bit_set (ulUnicodeRange2 os2) (bit - 32)
  else if in_range bit 64 96 then bit_set (ulUnicodeRange3 os2) (bit - 64)
  else false.

Fixpoint unicode_range_check (os2 : table_OS2) (bits : list (str * N)) : bool :=
  match bits with
  | [] => false
  | (_, bit) :: rest =>
      if unicode_range_bit os2 (Z.of_N bit) then true
      else unicode_range_check os2 rest
  end.

(** [for x in range(x, x + n): if int(x) in cmap: return True] *)
Fixpoint cmap_range_check (cmap : option (gmap Z str)) (x : Z) (n : nat)
  : result bool :=
  match n with
  | O => Ok false
  | S n' =>
      let* hit := cmap_contains cmap x in
      if hit then Ok true else cmap_range_check cmap (x + 1) n'
  end.

Fixpoint cmap_check (cmap : option (gmap Z str)) (ranges : list (Z * Z))
  : result bool :=
  match ranges with
  | [] => Ok false
  | (lo, hi) :: rest =>
      let* hit := cmap_range_check cmap lo (Z.to_nat (hi + 1 - lo)) in
      if hit then Ok true else cmap_check cmap rest
  end.

Definition is_cjk_font (tt_font : TTFont) : result bool :=
  let* os2 := getitem (tbl_OS2 tt_font) in
  let* code_page := code_page_check os2 CJK_CODEPAGE_BITS in
  if code_page then Ok true
  else if unicode_range_check os2 CJK_UNICODE_RANGE_BITS then Ok true
  else cmap_check (getBestCmap tt_font) CJK_UNICODE_RANGES.

Definition get_line_height_factor (tt_font : TTFont) : result float :=
  let* hhea := getitem (tbl_hhea tt_font) in
  let hhea_ascent := ascent hhea in
  let hhea_descent := descent hhea in
  let hhea_linegap := lineGap hhea in
  let* head := getitem (tbl_head tt_font) in
  let units_per_em := unitsPerEm head in
  let* cjk := is_cjk_font tt_font in
  let hhea_total_height := hhea_ascent + Z.abs hhea_descent in
  let hhea_btb_distance := hhea_total_height + hhea_linegap in
  let* distance :=
    if cjk then
      let* t := float_of_int hhea_total_height in Ok (PrimFloat.mul 1.3 t)
    else
      let* t := float_of_int hhea_btb_distance in Ok (PrimFloat.mul 1.0 t) in
  float_div_int distance units_per_em.

(** [Fonts.get_defult_fonts] *)
Definition get_defult_fonts : list Font :=
  List.map (fun item => {| name := fst item; line_height := snd item |})
    DICT_FONT_LINE_HEIGHT.

(** [ext != "n/a"] *)
Definition is_embedded (ext : str) : bool :=
  negb (if list_eq_dec N.eq_dec ext (u "n/a") then true else false).

(** The [try] statement around [TTFont(...)]: a [TTLibError] leaves [None]
    (the message it prints is left out), any other exception goes on. *)
Definition try_open (buffer : bytes) : result (option TTFont) :=
  match open_TTFont buffer with
  | Ok font => Ok (Some font)
  | Raise TTLibError => Ok None
  | Raise e => Raise e
  end.

(** The body of the loop over [xrefs]: the font appended for [xref]. *)
Definition extract_one (default_fonts : list Font) (doc : Document) (xref : Z)
  : result Font :=
  let '(basename, ext, buffer) := extract_font doc xref in
  let name := _normalized_font_name basename in
  let fallback := Ok (get upper_char default_fonts name) in
  if is_embedded ext then
    let* tt_ := try_open buffer in
    if _is_valid tt_ then
      match tt_ with
      | Some tt_font =>
          let* family := get_font_family_name tt_font in
          let* factor := get_line_height_factor tt_font in
          Ok {| name := family; line_height := factor |}
      | None => fallback
      end
    else fallback
  else fallback.

Fixpoint extract_loop (default_fonts : list Font) (doc : Document)
  (xrefs : list Z) (fonts : list Font) : result (list Font) :=
  match xrefs with
  | [] => Ok fonts
  | xref :: rest =>
      let* font := extract_one default_fonts doc xref in
      extract_loop default_fonts doc rest (fonts ++ [font])
  end.

Definition extract (fitz_doc : Document) : result (list Font) :=
  let xrefs := set_iter (List.concat (page_fonts fitz_doc)) in
  let default_fonts := get_defult_fonts in
  extract_loop default_fonts fitz_doc xrefs [].

End Extract.

End Fonts.

(** ** The words of the specification for [normalize]

    Split on the first [+] and keep the suffix, then split on the first [-]
    and keep the prefix. *)
Fixpoint after_first (sep : N) (s : str) : option str :=
  match s with
  | [] => None
  | c :: s' => if N.eqb c sep then Some s' else after_first sep s'
  end.

Fixpoint before_first (sep : N) (s : str) : str :=
  match s with
  | [] => []
  | c :: s' => if N.eqb c sep then [] else c :: before_first sep s'
  end.

Definition normalize_spec (s : str) : str :=
  before_first DASH (match after_first PLUS s with Some t => t | None => s end).

(** [a in b] as a proposition. *)
Definition substring (a b : str) : Prop :=
  exists pre post, b = pre ++ a ++ post.

(** A font matches the normalized query [q] when one of [q] and the font's
    normalized name is contained in the other. *)
Definition name_matches (upper_char : N -> list N) (q : str) (f : Font) : Prop :=
  substring q (Fonts.normalized upper_char (name f)) \/
  substring (Fonts.normalized upper_char (name f)) q.

(** ** The words of the specification for [family_name]

    Every record decoded, and the value of the first record with a given id
    that is not empty. *)
Fixpoint decode_all (records : list NameRecord) : result (list (Z * str)) :=
  match records with
  | [] => Ok []
  | record :: rest =>
      let* name_str := Fonts.decode_record record in
      let* l := decode_all rest in
      Ok ((nameID record, name_str) :: l)
  end.

Fixpoint first_value (id : Z) (l : list (Z * str)) : str :=
  match l with
  | [] => []
  | (i, name_str) :: rest =>
      if (i =? id) && Fonts.truthy_str name_str then name_str
      else first_value id rest
  end.

(** ** The words of the specification for [is_cjk]

    The three signals, over the configured tables. *)
Definition codepage_signal (bits : list (str * N)) (os2 : table_OS2) : Prop :=
  exists label b word,
    In (label, b) bits
    /\ ulCodePageRange1 os2 = Some word
    /\ Z.land word (Z.shiftl 1 (Z.of_N b)) <> 0.

(** The range word of a band of 32 bits. *)
Definition range_word (os2 : table_OS2) (band : Z) : Z :=
  if band =? 0 then ulUnicodeRange1 os2
  else if band =? 1 then ulUnicodeRange2 os2
  else ulUnicodeRange3 os2.

Definition unicode_range_signal (bits : list (str * N)) (os2 : table_OS2) : Prop :=
  exists label b,
    In (label, b) bits
    /\ Z.of_N b < 96
    /\ Z.land (range_word os2 (Z.of_N b / 32))
             (Z.shiftl 1 (Z.of_N b - 32 * (Z.of_N b / 32))) <> 0.

Definition cmap_signal (ranges : list (Z * Z)) (cmap : option (gmap Z str)) : Prop :=
  exists d lo hi x,
    cmap = Some d /\ In (lo, hi) ranges /\ lo <= x <= hi /\ is_Some (d !! x).

(** ** The field formats of the tables: [int16] and [uint16] *)
Definition int16 (z : Z) : Prop := -32768 <= z <= 32767.
Definition uint16 (z : Z) : Prop := 0 <= z <= 65535.

(** A test on every integer of [lo, lo + n). *)
Fixpoint all_from (lo : Z) (n : nat) (p : Z -> bool) : bool :=
  match n with
  | O => true
  | S n' => p lo && all_from (lo + 1) n' p
  end.

(** The integer converts without overflow, and times [1.0] it is itself. *)
Definition converts_exactly (z : Z) : bool :=
  negb (PrimFloat.is_infinity (nearest_float z))
  && PrimFloat.Leibniz.eqb (PrimFloat.mul 1.0 (nearest_float z)) (nearest_float z).

(** ** Data of the examples *)

(** An instance of the tables of [common/constants.py]. *)
Definition example_CODEPAGE_BITS : list (str * N) :=
  [ (u "JIS/Japan", 17%N); (u "Chinese: Simplified chars", 18%N);
    (u "Korean Wansung", 19%N); (u "Chinese: Traditional chars", 20%N);
    (u "Korean Johab", 21%N) ].

Definition example_UNICODE_RANGE_BITS : list (str * N) :=
  [ (u "Hangul Jamo", 28%N); (u "Hiragana", 49%N); (u "Katakana", 50%N);
    (u "CJK Unified Ideographs", 59%N); (u "Yi Syllables", 83%N) ].

Definition example_UNICODE_RANGES : list (Z * Z) :=
  [ (4352, 4607); (12352, 12447); (19968, 40959) ].

Definition example_FONT_LINE_HEIGHT : list (str * float) :=
  [ (u "Times New Roman", 1.15%float); (u "Helvetica", 1.15%float);
    (u "Courier", 1.13%float) ].

Definition Calibri : Font := {| name := u "Calibri"; line_height := 1.18 |}.
Definition Arial : Font := {| name := u "Arial"; line_height := 1.15 |}.

(** The octets of an ASCII text in Latin-1 and in big-endian UTF-16. *)
Definition latin_1 (s : string) : bytes := list_byte_of_string s.
Definition utf_16_be (s : string) : bytes :=
  List.flat_map (fun b => [x00; b]) (list_byte_of_string s).

(** A naming table: the full name, the family name twice, and a record that
    cannot be decoded. *)
Definition example_names : table_name :=
  {| names :=
       [ {| nameID := 4; string_ := latin_1 "Calibri Bold" |};
         {| nameID := 2; string_ := latin_1 "Bold" |};
         {| nameID := 1; string_ := utf_16_be "BCDGEE+Calibri-Bold" |};
         {| nameID := 1; string_ := latin_1 "Other" |};
         {| nameID := 6; string_ := [x00; x41; x00] |} ] |}.

Definition font_of_names (t : table_name) : TTFont :=
  {| tbl_name := Some t; tbl_hhea := None; tbl_head := None; tbl_OS2 := None;
     getBestCmap := None |}.

(** Tables of a font with the metrics of the specification's example. *)
Definition example_hhea : table_hhea :=
  {| ascent := 880; descent := -120; lineGap := 0 |}.

Definition no_ranges : table_OS2 :=
  {| ulCodePageRange1 := Some 0; ulUnicodeRange1 := 0; ulUnicodeRange2 := 0;
     ulUnicodeRange3 := 0 |}.

(** Code page bit 17 (JIS/Japan) set. *)
Definition japanese_ranges : table_OS2 :=
  {| ulCodePageRange1 := Some 131072; ulUnicodeRange1 := 0;
     ulUnicodeRange2 := 0; ulUnicodeRange3 := 0 |}.

(** No configured bit set; bit 27 set in the first and in the third range
    word. *)
Definition reserved_ranges : table_OS2 :=
  {| ulCodePageRange1 := Some 0; ulUnicodeRange1 := 134217728;
     ulUnicodeRange2 := 0; ulUnicodeRange3 := 134217728 |}.

(** An OS/2 table of version 0. *)
Definition version_0_ranges : table_OS2 :=
  {| ulCodePageRange1 := None; ulUnicodeRange1 := 0; ulUnicodeRange2 := 0;
     ulUnicodeRange3 := 0 |}.

Definition latin_cmap : gmap Z str :=
  {[ 65 := u "A" ]}.

Definition example_font (os2 : table_OS2) (units_per_em : Z)
  (cmap : option (gmap Z str)) : TTFont :=
  {| tbl_name := Some example_names;
     tbl_hhea := Some example_hhea;
     tbl_head := Some {| unitsPerEm := units_per_em |};
     tbl_OS2 := Some os2;
     getBestCmap := cmap |}.


(** [str.upper] on ASCII text. *)
Definition ascii_upper_char (c : N) : list N :=
  if ((97 <=? c) && (c <=? 122))%N then [(c - 32)%N] else [c].

(** The iteration order of a CPython [set] of at most four ints of [0, 7]:
    such a set lives in the initial table of eight slots, the int [x] in slot
    [x], and iteration walks the slots upwards. *)
Definition small_set_iter (adds : list Z) : list Z :=
  List.filter (fun x => List.existsb (Z.eqb x) adds) [0; 1; 2; 3; 4; 5; 6; 7].

(** A stand-in for the font library's parser: what [TTFont] makes of the
    buffers of the examples.  Buffer [01] is a sound Latin font, [02] a font
    with [unitsPerEm = 0], [03] a font without a Unicode character map, [04]
    a Japanese font; any other buffer is not a font at all. *)
Definition example_open (buffer : bytes) : result TTFont :=
  match buffer with
  | [x01] => Ok (example_font no_ranges 1000 (Some latin_cmap))
  | [x02] => Ok (example_font no_ranges 0 (Some latin_cmap))
  | [x03] => Ok (example_font no_ranges 1000 None)
  | [x04] => Ok (example_font japanese_ranges 1000 (Some latin_cmap))
  | _ => Raise TTLibError
  end.

(** Font 3 is embedded and has [unitsPerEm = 0]. *)
Definition doc_zero_units : Document :=
  {| page_fonts := [[3]];
     extract_font := fun _ => (u "ABCDEF+Broken-Regular", u "ttf", [x02]) |}.

(** Font 3 is embedded and has no Unicode character map. *)
Definition doc_no_cmap : Document :=
  {| page_fonts := [[3]];
     extract_font := fun _ => (u "ABCDEF+Dingbats", u "ttf", [x03]) |}.

(** Two base fonts: font 5 is met first, font 3 after it. *)
Definition doc_two_base_fonts : Document :=
  {| page_fonts := [[5]; [5; 3]];
     extract_font := fun xref =>
       if xref =? 5 then (u "Helvetica-Bold", u "n/a", [])
       else (u "Courier", u "n/a", []) |}.

(** Three fonts met in the order 2, 4, 6: a sound embedded font, an embedded
    font that cannot be parsed, and a Japanese embedded font. *)
Definition doc_three_fonts : Document :=
  {| page_fonts := [[2; 4]; [4; 6]];
     extract_font := fun xref =>
       if xref =? 2 then (u "ABCDEF+Calibri-Bold", u "ttf", [x01])
       else if xref =? 4 then (u "GHIJKL+Helvetica-Oblique", u "ttf", [])
       else (u "MS-Mincho", u "ttf", [x04]) |}.

(** ** The words of the specification for [extract]

    [fonts] holds, for every cross-reference of [xrefs] in turn, the font
    that the loop appends for it. *)
Section Appended.

Variable upper_char : N -> list N.
Variable CJK_CODEPAGE_BITS : list (str * N).
Variable CJK_UNICODE_RANGE_BITS : list (str * N).
Variable CJK_UNICODE_RANGES : list (Z * Z).
Variable DICT_FONT_LINE_HEIGHT : list (str * float).
Variable open_TTFont : bytes -> result TTFont.

Definition appended (doc : Document) (xrefs : list Z) (fonts : list Font) : Prop :=
  Forall2
    (fun xref font =>
       Fonts.extract_one upper_char CJK_CODEPAGE_BITS CJK_UNICODE_RANGE_BITS
         CJK_UNICODE_RANGES open_TTFont
         (Fonts.get_defult_fonts DICT_FONT_LINE_HEIGHT) doc xref
       = Ok font)
    xrefs fonts.

End Appended.

(** The elements of a list, each once, in the order they are first met. *)
Fixpoint first_observed (l : list Z) : list Z :=
  match l with
  | [] => []
  | x :: l' => x :: List.filter (fun y => negb (y =? x)) (first_observed l')
  end.


(** [extract] with the tables, the parser and the set order of the examples. *)
Definition example_extract : Document -> result (list Font) :=
  Fonts.extract ascii_upper_char example_CODEPAGE_BITS
    example_UNICODE_RANGE_BITS example_UNICODE_RANGES example_FONT_LINE_HEIGHT
    example_open small_set_iter.

Definition example_extract_one : Document -> Z -> result Font :=
  Fonts.extract_one ascii_upper_char example_CODEPAGE_BITS
    example_UNICODE_RANGE_BITS example_UNICODE_RANGES example_open
    (Fonts.get_defult_fonts example_FONT_LINE_HEIGHT).

(** A naming table whose second record cannot be decoded. *)
Definition broken_names : table_name :=
  {| names :=
       [ {| nameID := 4; string_ := latin_1 "Calibri Bold" |};
         {| nameID := 6; string_ := [x00; x41; x00] |};
         {| nameID := 1; string_ := latin_1 "Calibri" |} ] |}.

(** Two fonts of the same design: the second with a line gap and with its
    descent written as a positive number. *)
Definition mincho : TTFont :=
  example_font japanese_ranges 1000 (Some latin_cmap).

Definition mincho_gap : TTFont :=
  {| tbl_name := Some example_names;
     tbl_hhea := Some {| ascent := 880; descent := 120; lineGap := 90 |};
     tbl_head := Some {| unitsPerEm := 1000 |};
     tbl_OS2 := Some japanese_ranges;
     getBestCmap := Some latin_cmap |}.

(** A character map with another Latin letter. *)
Definition other_latin_cmap : gmap Z str :=
  {[ 66 := u "B" ]}.

(** The font appended for a reference that is resolved from the default
    table. *)
Definition is_fallback (open_TTFont : bytes -> result TTFont)
  (doc : Document) (xref : Z) : Prop :=
  snd (fst (extract_font doc xref)) = u "n/a"
  \/ open_TTFont (snd (extract_font doc xref)) = Raise TTLibError
  \/ exists tt_font,
       open_TTFont (snd (extract_font doc xref)) = Ok tt_font
       /\ Fonts._is_valid (Some tt_font) = false.

(** What [get] on the default table gives for the normalized base name of
    [xref]. *)
Definition default_font (upper_char : N -> list N)
  (DICT_FONT_LINE_HEIGHT : list (str * float)) (doc : Document) (xref : Z)
  : Font :=
  Fonts.get upper_char (Fonts.get_defult_fonts DICT_FONT_LINE_HEIGHT)
    (Fonts._normalized_font_name (fst (fst (extract_font doc xref)))).

(** Font 2 is a sound embedded font, font 3 has [unitsPerEm = 0], font 5 is a
    base font. *)
Definition doc_second_broken : Document :=
  {| page_fonts := [[2; 3]; [5]];
     extract_font := fun xref =>
       if xref =? 2 then (u "ABCDEF+Calibri-Bold", u "ttf", [x01])
       else if xref =? 3 then (u "ABCDEF+Broken-Regular", u "ttf", [x02])
       else (u "Courier", u "n/a", []) |}.

(** * Part II: properties *)

(** ** Lemmas on [split] *)

Lemma split_nonempty sep s : split sep s <> [].
Proof.
  destruct s as [|c s]; simpl; [discriminate|].
  destruct (N.eqb c sep); [discriminate|].
  destruct (split sep s); discriminate.
Qed.

Lemma split_cons_ne sep c s :
  c <> sep ->
  split sep (c :: s) =
  (c :: item_first (split sep s)) :: List.tl (split sep s).
Proof.
  intros Hc. simpl. apply N.eqb_neq in Hc. rewrite Hc.
  destruct (split sep s) eqn:E; [now apply split_nonempty in E|reflexivity].
Qed.

Lemma split_first_is_before_first sep s :
  item_first (split sep s) = before_first sep s.
Proof.
  induction s as [|c s IH]; [reflexivity|].
  destruct (N.eq_dec c sep) as [->|Hc].
  - simpl. now rewrite N.eqb_refl.
  - rewrite split_cons_ne by assumption. simpl.
    apply N.eqb_neq in Hc. now rewrite Hc, IH.
Qed.

Lemma split_no_sep sep s : ~ In sep s -> split sep s = [s].
Proof.
  induction s as [|c s IH]; intros Hn; [reflexivity|].
  rewrite split_cons_ne by (intros ->; apply Hn; now left).
  rewrite IH by (intros H; apply Hn; now right). reflexivity.
Qed.

Lemma split_segments_no_sep sep s seg :
  In seg (split sep s) -> ~ In sep seg.
Proof.
  revert seg. induction s as [|c s IH]; intros seg Hin.
  - simpl in Hin. destruct Hin as [<-|[]]. intros [].
  - destruct (N.eq_dec c sep) as [->|Hc].
    + simpl in Hin. rewrite N.eqb_refl in Hin.
      destruct Hin as [<-|Hin]; [intros []|now apply IH].
    + rewrite split_cons_ne in Hin by assumption.
      pose proof (split_nonempty sep s) as Hne.
      destruct (split sep s) as [|seg0 rest]; [easy|].
      simpl in Hin. destruct Hin as [<-|Hin].
      * intros [Heq|Hin']; [easy|]. apply (IH seg0); [now left|assumption].
      * apply IH. now right.
Qed.

Lemma item_last_in (l : list str) : l <> [] -> In (item_last l) l.
Proof.
  unfold item_last. induction l as [|a [|b l] IH]; intros H; [easy|now left|].
  right. apply IH. discriminate.
Qed.

Lemma before_first_no_sep sep s : ~ In sep (before_first sep s).
Proof.
  induction s as [|c s IH]; simpl; [tauto|].
  destruct (N.eqb c sep) eqn:E; simpl; [tauto|].
  apply N.eqb_neq in E. intros [H|H]; [easy|auto].
Qed.

Lemma before_first_id sep s : ~ In sep s -> before_first sep s = s.
Proof.
  induction s as [|c s IH]; intros Hn; [reflexivity|]. simpl.
  destruct (N.eqb c sep) eqn:E.
  - apply N.eqb_eq in E. subst. exfalso. apply Hn. now left.
  - f_equal. apply IH. intros H. apply Hn. now right.
Qed.

Lemma before_first_subset sep s c : In c (before_first sep s) -> In c s.
Proof.
  induction s as [|d s IH]; simpl; [tauto|].
  destruct (N.eqb d sep); simpl; [tauto|]. intros [H|H]; auto.
Qed.

Lemma before_first_split sep s :
  (~ In sep s /\ before_first sep s = s) \/
  (exists post, s = before_first sep s ++ sep :: post).
Proof.
  induction s as [|c s IH]; [left; split; [tauto|reflexivity]|].
  simpl. destruct (N.eqb c sep) eqn:E.
  - apply N.eqb_eq in E. subst. right. now exists s.
  - apply N.eqb_neq in E. destruct IH as [[Hn Heq]|[post Hp]].
    + left. split; [intros [H|H]; [easy|auto]|now rewrite Heq].
    + right. exists post. simpl. now rewrite <- Hp.
Qed.

Lemma split_last_suffix sep s :
  (~ In sep s /\ item_last (split sep s) = s) \/
  (exists pre, s = pre ++ sep :: item_last (split sep s)).
Proof.
  induction s as [|c s IH]; [left; split; [tauto|reflexivity]|].
  pose proof (split_nonempty sep s) as Hne.
  destruct (N.eq_dec c sep) as [->|Hc].
  - right. simpl. rewrite N.eqb_refl.
    destruct IH as [[Hn Heq]|[pre Hp]].
    + exists []. simpl. unfold item_last in *. simpl.
      destruct (split sep s); [easy|]. now rewrite Heq.
    + exists (sep :: pre). unfold item_last in *. simpl.
      destruct (split sep s); [easy|]. now rewrite <- Hp.
  - rewrite split_cons_ne by assumption.
    destruct IH as [[Hn Heq]|[pre Hp]].
    + left. split; [intros [H|H]; [easy|auto]|].
      rewrite split_no_sep in * by assumption. reflexivity.
    + right. exists (c :: pre).
      assert (item_last ((c :: item_first (split sep s)) :: List.tl (split sep s))
              = item_last (split sep s)) as ->.
      { destruct (split sep s) as [|seg0 [|seg1 rest]] eqn:E; [easy| |reflexivity].
        exfalso. rewrite Hp in E. clear -E.
        assert (List.length (split sep (pre ++ sep :: item_last [seg0])) >= 2)%nat.
        { clear. induction pre as [|d pre IH]; simpl.
          - rewrite N.eqb_refl. simpl.
            pose proof (split_nonempty sep (item_last [seg0])).
            destruct (split sep (item_last [seg0])); [easy|simpl; lia].
          - destruct (N.eqb d sep); simpl; [lia|].
            destruct (split sep (pre ++ sep :: item_last [seg0])); simpl in *; lia. }
        rewrite E in H. simpl in H. lia. }
      simpl. now rewrite <- Hp.
Qed.

(** ** [Fonts._normalized_font_name] *)

Lemma normalized_font_name_eq s :
  Fonts._normalized_font_name s = before_first DASH (item_last (split PLUS s)).
Proof.
  unfold Fonts._normalized_font_name. apply split_first_is_before_first.
Qed.

Lemma normalized_font_name_no_plus s : ~ In PLUS (Fonts._normalized_font_name s).
Proof.
  rewrite normalized_font_name_eq. intros H.
  apply before_first_subset in H.
  eapply split_segments_no_sep; [|exact H].
  apply item_last_in, split_nonempty.
Qed.

Lemma normalized_font_name_no_dash s : ~ In DASH (Fonts._normalized_font_name s).
Proof.
  rewrite normalized_font_name_eq. apply before_first_no_sep.
Qed.

Lemma normalized_font_name_fixed s :
  ~ In PLUS s -> ~ In DASH s -> Fonts._normalized_font_name s = s.
Proof.
  intros Hp Hd. rewrite normalized_font_name_eq.
  rewrite split_no_sep by assumption. simpl. now apply before_first_id.
Qed.

(** C9: [_normalized_font_name] is idempotent. *)
Theorem normalized_font_name_idempotent :
  forall s : str,
    Fonts._normalized_font_name (Fonts._normalized_font_name s)
    = Fonts._normalized_font_name s.
Proof.
  intros s. apply normalized_font_name_fixed.
  - apply normalized_font_name_no_plus.
  - apply normalized_font_name_no_dash.
Qed.

(** C4, as stated, fails: the name [+OnlyPrefix-] is normalized to
    [OnlyPrefix], not to the empty string, and of a name with two [+] signs
    the part after the last one is kept, not the part after the first. *)
Lemma normalized_font_name_not_first_plus :
  Fonts._normalized_font_name (u "+OnlyPrefix-") = u "OnlyPrefix"
  /\ u "OnlyPrefix" <> u ""
  /\ Fonts._normalized_font_name (u "A+B+C") = u "C"
  /\ normalize_spec (u "A+B+C") = u "B+C"
  /\ u "C" <> u "B+C".
Proof.
  repeat split; try reflexivity; discriminate.
Qed.

(** C4, amended: [_normalized_font_name s] is the part of [s] after its last
    [+] (all of [s] when it has none), cut before its first [-] (not cut when
    it has none); [BCDGEE+Calibri-Bold] gives [Calibri], [Arial] gives [Arial]
    and [+OnlyPrefix-] gives [OnlyPrefix]. *)
Theorem normalized_font_name_last_plus_first_dash :
  (forall s : str,
      exists t : str,
        ((~ In PLUS s /\ t = s) \/
         (exists pre, s = pre ++ PLUS :: t /\ ~ In PLUS t))
        /\
        ((~ In DASH t /\ Fonts._normalized_font_name s = t) \/
         (exists post, t = Fonts._normalized_font_name s ++ DASH :: post
                       /\ ~ In DASH (Fonts._normalized_font_name s))))
  /\ Fonts._normalized_font_name (u "BCDGEE+Calibri-Bold") = u "Calibri"
  /\ Fonts._normalized_font_name (u "Arial") = u "Arial"
  /\ Fonts._normalized_font_name (u "+OnlyPrefix-") = u "OnlyPrefix".
Proof.
  split; [|repeat split; reflexivity].
  intros s. exists (item_last (split PLUS s)). split.
  - destruct (split_last_suffix PLUS s) as [[Hn Heq]|[pre Hp]].
    + left. now split.
    + right. exists pre. split; [exact Hp|].
      eapply split_segments_no_sep. apply item_last_in, split_nonempty.
  - rewrite normalized_font_name_eq.
    destruct (before_first_split DASH (item_last (split PLUS s))) as [[Hn Heq]|[post Hp]].
    + left. now split.
    + right. exists post. split; [exact Hp|apply before_first_no_sep].
Qed.

(** ** [Fonts.get] *)

Lemma starts_with_prefix (a b : str) :
  starts_with a b = true <-> exists post, b = a ++ post.
Proof.
  revert b. induction a as [|x a IH]; intros b.
  - simpl. split; [intros _; now exists b|reflexivity].
  - destruct b as [|y b]; simpl.
    + split; [discriminate|intros [post H]; discriminate].
    + rewrite andb_true_iff, N.eqb_eq, IH. split.
      * intros [-> [post ->]]. now exists post.
      * intros [post H]. injection H as -> ->. split; [reflexivity|now exists post].
Qed.

Lemma str_in_substring (a b : str) :
  str_in a b = true <-> substring a b.
Proof.
  unfold substring. induction b as [|y b IH].
  - simpl. rewrite orb_false_r, starts_with_prefix. split.
    + intros [post H]. now exists [], post.
    + intros [pre [post H]]. destruct pre; [now exists post|discriminate].
  - cbn [str_in]. rewrite orb_true_iff, starts_with_prefix, IH. split.
    + intros [[post H]|[pre [post H]]].
      * now exists [], post.
      * exists (y :: pre), post. simpl. now rewrite H.
    + intros [[|z pre] [post H]].
      * left. now exists post.
      * right. injection H as _ H. now exists pre, post.
Qed.

Lemma str_in_nil (b : str) : str_in [] b = true.
Proof.
  destruct b; reflexivity.
Qed.

Lemma remove_spaces_blank (s : str) :
  Forall (fun c => c = SPACE) s -> remove_spaces s = [].
Proof.
  induction 1 as [|c s Hc _ IH]; [reflexivity|].
  simpl. subst c. simpl. exact IH.
Qed.

Lemma remove_spaces_app (s t : str) :
  remove_spaces (s ++ t) = remove_spaces s ++ remove_spaces t.
Proof.
  apply filter_app.
Qed.

Section GetProperties.

Variable upper_char : N -> list N.

Local Abbreviation get := (Fonts.get upper_char).
Local Abbreviation normalized := (Fonts.normalized upper_char).
Local Abbreviation matches := (name_matches upper_char).

Lemma get_scan_cons_test (font : Font) (q : str) :
  str_in q (normalized (name font)) || str_in (normalized (name font)) q = true
  <-> matches q font.
Proof.
  unfold name_matches. now rewrite orb_true_iff, !str_in_substring.
Qed.

Lemma get_scan_first_match (pre : list Font) (f : Font) (post : list Font)
  (q font_name : str) :
  Forall (fun g => ~ matches q g) pre ->
  matches q f ->
  Fonts.get_scan upper_char (pre ++ f :: post) q font_name = f.
Proof.
  induction 1 as [|g pre Hg _ IH]; intros Hf; simpl.
  - apply get_scan_cons_test in Hf. now rewrite Hf.
  - destruct (_ || _) eqn:E; [|now apply IH].
    apply get_scan_cons_test in E. contradiction.
Qed.

Lemma get_scan_no_match (fonts : list Font) (q font_name : str) :
  Forall (fun g => ~ matches q g) fonts ->
  Fonts.get_scan upper_char fonts q font_name
  = {| name := font_name; line_height := 1.2 |}.
Proof.
  induction 1 as [|g fonts Hg _ IH]; simpl; [reflexivity|].
  destruct (_ || _) eqn:E; [|exact IH].
  apply get_scan_cons_test in E. contradiction.
Qed.

(** C7: [get] compares names after removing the spaces and upper-casing,
    scans the collection in order and returns the first font whose normalized
    name contains the normalized query or is contained in it; when no font
    matches it returns a new font with the query as given and line height 1.2,
    as the empty collection does for [Anything]. *)
Theorem get_first_match_or_default :
  forall (fonts : list Font) (font_name : str),
    normalized font_name
    = List.flat_map upper_char
        (List.filter (fun c => negb (N.eqb c SPACE)) font_name)
    /\ (forall s1 s2 : str, normalized (s1 ++ SPACE :: s2) = normalized (s1 ++ s2))
    /\ (forall pre f post,
           fonts = pre ++ f :: post ->
           Forall (fun g => ~ matches (normalized font_name) g) pre ->
           matches (normalized font_name) f ->
           get fonts font_name = f)
    /\ (Forall (fun g => ~ matches (normalized font_name) g) fonts ->
        get fonts font_name = {| name := font_name; line_height := 1.2 |})
    /\ get [] (u "Anything") = {| name := u "Anything"; line_height := 1.2 |}.
Proof.
  intros fonts font_name. repeat split.
  - intros s1 s2. unfold Fonts.normalized.
    now rewrite !remove_spaces_app.
  - intros pre f post -> Hpre Hf. now apply get_scan_first_match.
  - intros Hnone. now apply get_scan_no_match.
Qed.

(** C10: on a collection that is not empty, [get] of the empty string, or of
    a string of spaces only, returns the first font of the collection. *)
Theorem get_blank_query_first_font :
  forall (f : Font) (fonts : list Font) (font_name : str),
    Forall (fun c => c = SPACE) font_name ->
    get (f :: fonts) font_name = f.
Proof.
  intros f fonts font_name Hblank.
  unfold Fonts.get, Fonts.normalized at 1.
  rewrite (remove_spaces_blank _ Hblank). simpl.
  now rewrite str_in_nil.
Qed.

End GetProperties.

Lemma get_first_match_or_default_witness :
  Fonts.get ascii_upper_char [Arial; Calibri] (u "calibri bold") = Calibri.
Proof.
  apply (proj1 (proj2 (proj2 (get_first_match_or_default ascii_upper_char
                                [Arial; Calibri] (u "calibri bold"))))
           [Arial] Calibri []).
  - reflexivity.
  - constructor; [|constructor].
    intros H. apply get_scan_cons_test in H. vm_compute in H. discriminate.
  - apply get_scan_cons_test. vm_compute. reflexivity.
Defined.

Lemma get_blank_query_first_font_witness :
  Forall (fun c => c = SPACE) (u "  ")
  /\ Fonts.get ascii_upper_char [Arial; Calibri] (u "  ") = Arial.
Proof.
  assert (H : Forall (fun c => c = SPACE) (u "  ")) by (repeat constructor).
  split; [exact H|].
  exact (get_blank_query_first_font ascii_upper_char Arial [Calibri] (u "  ") H).
Defined.

(** The look-ups of the specification's substring example. *)
Example get_substring_examples :
  Fonts.get ascii_upper_char [Calibri] (u "Calibri-Bold") = Calibri
  /\ Fonts.get ascii_upper_char [Calibri] (u "CALIBRI") = Calibri
  /\ Fonts.get ascii_upper_char [Calibri] (u "calibri bold") = Calibri
  /\ Fonts.get ascii_upper_char [Calibri] (u "") = Calibri.
Proof.
  repeat split; vm_compute; reflexivity.
Qed.

(** ** [Fonts.get_font_family_name] *)

Lemma has_zero_byte_In (b : bytes) : Fonts.has_zero_byte b = true <-> In x00 b.
Proof.
  unfold Fonts.has_zero_byte. rewrite existsb_exists. split.
  - intros [x [Hin Hx]]. apply byte_dec_bl in Hx. now subst.
  - intros Hin. exists x00. split; [assumption|reflexivity].
Qed.

Lemma record_step_family (record : NameRecord) (name_str name family : str) :
  snd (Fonts.record_step record name_str name family)
  = if Fonts.truthy_str family then family
    else if nameID record =? 1 then name_str else [].
Proof.
  unfold Fonts.record_step, Fonts.FONT_SPECIFIER_NAME_ID,
    Fonts.FONT_SPECIFIER_FAMILY_ID.
  destruct (nameID record =? 4) eqn:E4, (nameID record =? 1) eqn:E1,
    name, family; simpl; try reflexivity;
    apply Z.eqb_eq in E4; apply Z.eqb_eq in E1; congruence.
Qed.

Lemma scan_records_family (records : list NameRecord) :
  forall (l : list (Z * str)) (name family : str),
    decode_all records = Ok l ->
    exists name',
      Fonts.scan_records records name family
      = Ok (name', if Fonts.truthy_str family then family else first_value 1 l).
Proof.
  induction records as [|record rest IH]; intros l name family Hl; simpl in *.
  - injection Hl as <-. exists name. now destruct family.
  - destruct (Fonts.decode_record record) as [name_str|e]; [|discriminate].
    simpl in *. destruct (decode_all rest) as [l'|e]; [|discriminate].
    simpl in Hl. injection Hl as <-.
    pose proof (record_step_family record name_str name family) as Hf.
    destruct (Fonts.record_step record name_str name family) as [name1 family1].
    simpl in Hf. simpl.
    assert (Hgoal : (if Fonts.truthy_str family1 then family1 else first_value 1 l')
                    = if Fonts.truthy_str family then family
                      else if (nameID record =? 1) && Fonts.truthy_str name_str
                           then name_str else first_value 1 l').
    { subst family1. destruct family; [|reflexivity]. simpl.
      destruct (nameID record =? 1); [|reflexivity].
      now destruct name_str. }
    destruct (Fonts.truthy_str name1 && Fonts.truthy_str family1) eqn:Eb.
    + exists name1. apply andb_true_iff in Eb as [_ Eb].
      rewrite Eb in Hgoal. now rewrite <- Hgoal.
    + destruct (IH l' name1 family1 eq_refl) as [name' H].
      exists name'. now rewrite H, Hgoal.
Qed.

Lemma scan_records_stop (pre post : list NameRecord) :
  forall (name family name' family' : str),
    Fonts.truthy_str name && Fonts.truthy_str family = false ->
    Fonts.scan_records pre name family = Ok (name', family') ->
    Fonts.truthy_str name' && Fonts.truthy_str family' = true ->
    Fonts.scan_records (pre ++ post) name family = Ok (name', family').
Proof.
  induction pre as [|record rest IH]; intros name family name' family' H0 Hs Hb.
  - simpl in Hs. injection Hs as <- <-. congruence.
  - simpl in *. destruct (Fonts.decode_record record) as [name_str|e]; [|discriminate].
    simpl in *.
    destruct (Fonts.record_step record name_str name family) as [name1 family1].
    destruct (Fonts.truthy_str name1 && Fonts.truthy_str family1) eqn:Eb.
    + exact Hs.
    + now apply IH.
Qed.

Lemma decode_all_ids (records : list NameRecord) :
  forall l, decode_all records = Ok l -> List.map fst l = List.map nameID records.
Proof.
  induction records as [|record rest IH]; intros l Hl; simpl in *.
  - now injection Hl as <-.
  - destruct (Fonts.decode_record record); [|discriminate]. simpl in Hl.
    destruct (decode_all rest) as [l'|]; [|discriminate]. simpl in Hl.
    injection Hl as <-. simpl. f_equal. now apply IH.
Qed.

Lemma first_value_absent (id : Z) (l : list (Z * str)) :
  ~ In id (List.map fst l) -> first_value id l = [].
Proof.
  induction l as [|[i name_str] l IH]; intros Hn; simpl in *; [reflexivity|].
  destruct (i =? id) eqn:E.
  - apply Z.eqb_eq in E. tauto.
  - simpl. apply IH. tauto.
Qed.

Lemma scan_records_no_family (records : list NameRecord) :
  forall (name name' family' : str),
    ~ In 1 (List.map nameID records) ->
    Fonts.scan_records records name [] = Ok (name', family') ->
    family' = [].
Proof.
  induction records as [|record rest IH]; intros name name' family' Hno Hs;
    simpl in *.
  - now injection Hs as _ <-.
  - destruct (Fonts.decode_record record) as [name_str|e]; [|discriminate].
    simpl in Hs.
    pose proof (record_step_family record name_str name []) as Hf.
    destruct (Fonts.record_step record name_str name []) as [name1 family1].
    simpl in Hf.
    destruct (nameID record =? 1) eqn:E; [apply Z.eqb_eq in E; tauto|].
    subst family1. rewrite andb_false_r in Hs.
    apply (IH name1 name' family'); [tauto|exact Hs].
Qed.



(** A table with a full name and no family name gives the empty string. *)
Example get_font_family_name_full_name_only :
  Fonts.get_font_family_name
    (font_of_names
       {| names := [ {| nameID := 4; string_ := latin_1 "Calibri Bold" |} ] |})
  = Ok [].
Proof.
  reflexivity.
Qed.

(** ** [Fonts.is_cjk_font] *)

Lemma bit_set_land (word bit : Z) :
  Fonts.bit_set word bit = true <-> Z.land word (Z.shiftl 1 bit) <> 0.
Proof.
  unfold Fonts.bit_set. rewrite negb_true_iff. apply Z.eqb_neq.
Qed.

Lemma code_page_check_present (os2 : table_OS2) (word : Z)
  (bits : list (str * N)) :
  ulCodePageRange1 os2 = Some word ->
  exists hit,
    Fonts.code_page_check os2 bits = Ok hit
    /\ (hit = true <-> codepage_signal bits os2).
Proof.
  intros Hword. unfold codepage_signal. rewrite Hword.
  induction bits as [|[label b] bits IH]; cbn [Fonts.code_page_check].
  - exists false. split; [reflexivity|]. split; [discriminate|].
    intros (? & ? & ? & [] & _).
  - rewrite Hword. cbn [getattr bind].
    destruct (Fonts.bit_set word (Z.of_N b)) eqn:E.
    + exists true. split; [reflexivity|]. split; [intros _|reflexivity].
      exists label, b, word.
      split; [now left|split; [reflexivity|now apply bit_set_land]].
    + destruct IH as (hit & Hrun & Hhit). exists hit. split; [exact Hrun|].
      rewrite Hhit. split.
      * intros (l' & b' & w' & Hin & Hw & Hb). exists l', b', w'.
        split; [now right|now split].
      * intros (l' & b' & w' & [Heq|Hin] & Hw & Hb).
        -- injection Heq as <- <-. injection Hw as <-.
           apply bit_set_land in Hb. congruence.
        -- now exists l', b', w'.
Qed.

Lemma code_page_check_no_attribute (os2 : table_OS2) (bits : list (str * N)) :
  ulCodePageRange1 os2 = None ->
  bits <> [] ->
  Fonts.code_page_check os2 bits = Raise AttributeError.
Proof.
  intros Hnone Hbits. destruct bits as [|[label b] bits]; [contradiction|].
  cbn [Fonts.code_page_check]. now rewrite Hnone.
Qed.

Lemma unicode_range_bit_band (os2 : table_OS2) (b : Z) :
  0 <= b ->
  Fonts.unicode_range_bit os2 b = true
  <-> b < 96
      /\ Z.land (range_word os2 (b / 32)) (Z.shiftl 1 (b - 32 * (b / 32))) <> 0.
Proof.
  intros Hb. unfold Fonts.unicode_range_bit, Fonts.in_range, range_word.
  destruct (Z.ltb_spec b 32) as [H1|H1];
    [|destruct (Z.ltb_spec b 64) as [H2|H2];
      [|destruct (Z.ltb_spec b 96) as [H3|H3]]].
  - assert (b / 32 = 0) as -> by (apply Z.div_small; lia).
    replace (0 <=? b) with true by (symmetry; apply Z.leb_le; lia).
    simpl. rewrite bit_set_land. replace (b - 32 * 0) with b by lia.
    intuition lia.
  - assert (b / 32 = 1) as ->
        by (symmetry; apply (Z.div_unique b 32 1 (b - 32)); lia).
    replace (0 <=? b) with true by (symmetry; apply Z.leb_le; lia).
    replace (32 <=? b) with true by (symmetry; apply Z.leb_le; lia).
    simpl. rewrite bit_set_land. replace (b - 32 * 1) with (b - 32) by lia.
    intuition lia.
  - assert (b / 32 = 2) as ->
        by (symmetry; apply (Z.div_unique b 32 2 (b - 64)); lia).
    replace (0 <=? b) with true by (symmetry; apply Z.leb_le; lia).
    replace (32 <=? b) with true by (symmetry; apply Z.leb_le; lia).
    replace (64 <=? b) with true by (symmetry; apply Z.leb_le; lia).
    simpl. rewrite bit_set_land. replace (b - 32 * 2) with (b - 64) by lia.
    intuition lia.
  - rewrite !andb_false_r. split; [discriminate|lia].
Qed.

Lemma unicode_range_check_signal (os2 : table_OS2) (bits : list (str * N)) :
  Fonts.unicode_range_check os2 bits = true <-> unicode_range_signal bits os2.
Proof.
  unfold unicode_range_signal. induction bits as [|[label b] bits IH]; simpl.
  - split; [discriminate|]. intros (? & ? & [] & _).
  - destruct (Fonts.unicode_range_bit os2 (Z.of_N b)) eqn:E.
    + split; [intros _|reflexivity].
      exists label, b. split; [now left|].
      apply unicode_range_bit_band in E; [exact E|lia].
    + rewrite IH. split.
      * intros (l' & b' & Hin & Hb). exists l', b'. split; [now right|assumption].
      * intros (l' & b' & [Heq|Hin] & Hb).
        -- injection Heq as <- <-.
           apply unicode_range_bit_band in Hb; [congruence|lia].
        -- now exists l', b'.
Qed.

Lemma cmap_range_check_present (d : gmap Z str) (n : nat) :
  forall x : Z,
    exists hit,
      Fonts.cmap_range_check (Some d) x n = Ok hit
      /\ (hit = true <-> exists y, x <= y < x + Z.of_nat n /\ is_Some (d !! y)).
Proof.
  induction n as [|n IH]; intros x.
  - exists false. split; [reflexivity|]. split; [discriminate|].
    intros (y & Hy & _). lia.
  - cbn [Fonts.cmap_range_check cmap_contains bind].
    destruct (d !! x) as [g|] eqn:E.
    + exists true. split; [reflexivity|]. split; [intros _|reflexivity].
      exists x. split; [lia|]. rewrite E. now exists g.
    + destruct (IH (x + 1)) as (hit & Hrun & Hhit).
      exists hit. split; [exact Hrun|]. rewrite Hhit. split.
      * intros (y & Hy & Hs). exists y. split; [lia|assumption].
      * intros (y & Hy & Hs). exists y. split; [|assumption].
        destruct (Z.eq_dec y x) as [->|Hne]; [|lia].
        rewrite E in Hs. destruct Hs as [? Hs]. discriminate.
Qed.

Lemma cmap_check_present (d : gmap Z str) (ranges : list (Z * Z)) :
  exists hit,
    Fonts.cmap_check (Some d) ranges = Ok hit
    /\ (hit = true <-> cmap_signal ranges (Some d)).
Proof.
  unfold cmap_signal. induction ranges as [|[lo hi] ranges IH].
  - exists false. split; [reflexivity|]. split; [discriminate|].
    intros (? & ? & ? & ? & _ & [] & _).
  - cbn [Fonts.cmap_check].
    destruct (cmap_range_check_present d (Z.to_nat (hi + 1 - lo)) lo)
      as (hit0 & Hrun0 & Hhit0).
    rewrite Hrun0. cbn [bind]. destruct hit0.
    + exists true. split; [reflexivity|]. split; [intros _|reflexivity].
      destruct (proj1 Hhit0 eq_refl) as (y & Hy & Hs).
      exists d, lo, hi, y. repeat split; try lia; [now left|assumption].
    + destruct IH as (hit & Hrun & Hhit). exists hit. split; [exact Hrun|].
      rewrite Hhit. split.
      * intros (d' & lo' & hi' & x & Hd & Hin & Hx & Hs).
        exists d', lo', hi', x. repeat split; try assumption; try lia. now right.
      * intros (d' & lo' & hi' & x & Hd & [Heq|Hin] & Hx & Hs).
        -- injection Heq as <- <-. injection Hd as <-.
           assert (false = true); [|discriminate].
           apply Hhit0. exists x. split; [lia|assumption].
        -- exists d', lo', hi', x. repeat split; try assumption; lia.
Qed.

Lemma cmap_check_absent (ranges : list (Z * Z)) :
  Fonts.cmap_check None ranges
  = if List.forallb (fun r => snd r <? fst r) ranges then Ok false
    else Raise TypeError.
Proof.
  induction ranges as [|[lo hi] ranges IH]; [reflexivity|].
  cbn [Fonts.cmap_check List.forallb fst snd].
  destruct (Z.ltb_spec hi lo) as [H|H].
  - replace (Z.to_nat (hi + 1 - lo)) with O by lia. simpl. exact IH.
  - destruct (Z.to_nat (hi + 1 - lo)) eqn:E; [lia|]. reflexivity.
Qed.

Section ClassifierProperties.

Variable CJK_CODEPAGE_BITS : list (str * N).
Variable CJK_UNICODE_RANGE_BITS : list (str * N).
Variable CJK_UNICODE_RANGES : list (Z * Z).

Local Abbreviation is_cjk_font :=
  (Fonts.is_cjk_font CJK_CODEPAGE_BITS CJK_UNICODE_RANGE_BITS CJK_UNICODE_RANGES).

(** X7: for a font whose OS/2 table has the [ulCodePageRange1] attribute
    (version 1 or later), [is_cjk_font] returns [True] exactly when one of
    the three signals fires; a signal of the OS/2 table decides without a
    look at the character map; when [getBestCmap()] gives a dictionary the
    function returns; when it gives [None], no signal of the OS/2 table fires
    and some configured range is not empty, the function raises instead of
    returning [False]. *)
Lemma is_cjk_font_signals (tt_font : TTFont) (os2 : table_OS2) (word : Z) :
  tbl_OS2 tt_font = Some os2 ->
  ulCodePageRange1 os2 = Some word ->
  (is_cjk_font tt_font = Ok true
   <-> codepage_signal CJK_CODEPAGE_BITS os2
       \/ unicode_range_signal CJK_UNICODE_RANGE_BITS os2
       \/ cmap_signal CJK_UNICODE_RANGES (getBestCmap tt_font))
  /\ (codepage_signal CJK_CODEPAGE_BITS os2
      \/ unicode_range_signal CJK_UNICODE_RANGE_BITS os2 ->
      is_cjk_font tt_font = Ok true)
  /\ (forall d, getBestCmap tt_font = Some d -> returns (is_cjk_font tt_font))
  /\ (getBestCmap tt_font = None ->
      ~ codepage_signal CJK_CODEPAGE_BITS os2 ->
      ~ unicode_range_signal CJK_UNICODE_RANGE_BITS os2 ->
      List.forallb (fun r => snd r <? fst r) CJK_UNICODE_RANGES = false ->
      exists e, is_cjk_font tt_font = Raise e).
Proof.
  intros Hos2 Hword. unfold Fonts.is_cjk_font. rewrite Hos2. cbn [getitem bind].
  destruct (code_page_check_present os2 word CJK_CODEPAGE_BITS Hword)
    as (code_page & Hrun & Hcp).
  rewrite Hrun. cbn [bind].
  pose proof (unicode_range_check_signal os2 CJK_UNICODE_RANGE_BITS) as Hur.
  destruct code_page.
  { assert (codepage_signal CJK_CODEPAGE_BITS os2) by now apply Hcp.
    repeat split; try tauto. intros d _. now exists true. }
  destruct (Fonts.unicode_range_check os2 CJK_UNICODE_RANGE_BITS).
  { assert (unicode_range_signal CJK_UNICODE_RANGE_BITS os2) by now apply Hur.
    repeat split; try tauto. intros d _. now exists true. }
  assert (Hncp : ~ codepage_signal CJK_CODEPAGE_BITS os2)
    by (intros H; apply Hcp in H; discriminate).
  assert (Hnur : ~ unicode_range_signal CJK_UNICODE_RANGE_BITS os2)
    by (intros H; apply Hur in H; discriminate).
  repeat split.
  - destruct (getBestCmap tt_font) as [d|].
    + destruct (cmap_check_present d CJK_UNICODE_RANGES) as (hit & Hrun' & Hhit).
      rewrite Hrun'. intros [= ->]. right. right. now apply Hhit.
    + rewrite cmap_check_absent.
      destruct (forallb _ _); discriminate.
  - intros [H|[H|H]]; [contradiction|contradiction|].
    destruct H as (d & lo & hi & x & Hd & Hrest). rewrite Hd.
    destruct (cmap_check_present d CJK_UNICODE_RANGES) as (hit & Hrun' & Hhit).
    rewrite Hrun'. f_equal. apply Hhit. exists d, lo, hi, x. now split.
  - tauto.
  - intros d ->.
    destruct (cmap_check_present d CJK_UNICODE_RANGES) as (hit & Hrun' & _).
    rewrite Hrun'. now exists hit.
  - intros -> _ _ Hranges. rewrite cmap_check_absent, Hranges.
    now exists TypeError.
Qed.

End ClassifierProperties.

(** ** [Fonts.get_line_height_factor] *)

Lemma all_from_forall (p : Z -> bool) (n : nat) :
  forall lo z, all_from lo n p = true -> lo <= z < lo + Z.of_nat n -> p z = true.
Proof.
  induction n as [|n IH]; intros lo z H Hz; [lia|].
  simpl in H. apply andb_true_iff in H as [H0 H].
  destruct (Z.eq_dec z lo) as [->|Hne]; [assumption|].
  apply (IH (lo + 1)); [assumption|lia].
Qed.

Lemma metrics_convert_exactly :
  all_from (-65536) (Z.to_nat 163840) converts_exactly = true.
Proof.
  vm_compute. reflexivity.
Qed.

Lemma float_of_small_int (z : Z) :
  -65536 <= z <= 98303 ->
  float_of_int z = Ok (nearest_float z)
  /\ PrimFloat.mul 1.0 (nearest_float z) = nearest_float z.
Proof.
  intros Hz.
  assert (H : converts_exactly z = true).
  { apply (all_from_forall _ _ _ _ metrics_convert_exactly). lia. }
  unfold converts_exactly in H. apply andb_true_iff in H as [Hfin Hmul].
  apply negb_true_iff in Hfin. apply FloatAxioms.Leibniz.eqb_spec in Hmul.
  unfold float_of_int. now rewrite Hfin.
Qed.

Section LineHeightProperties.

Variable CJK_CODEPAGE_BITS : list (str * N).
Variable CJK_UNICODE_RANGE_BITS : list (str * N).
Variable CJK_UNICODE_RANGES : list (Z * Z).

Local Abbreviation is_cjk_font :=
  (Fonts.is_cjk_font CJK_CODEPAGE_BITS CJK_UNICODE_RANGE_BITS CJK_UNICODE_RANGES).
Local Abbreviation get_line_height_factor :=
  (Fonts.get_line_height_factor
     CJK_CODEPAGE_BITS CJK_UNICODE_RANGE_BITS CJK_UNICODE_RANGES).

(** The factor of a font whose tables are there, as the code computes it:
    the distance is [1.3*total] or [1.0*(total + gap)] and the division
    raises [ZeroDivisionError] when [unitsPerEm] is zero. *)
Lemma get_line_height_factor_run (tt_font : TTFont) (hhea : table_hhea)
  (head : table_head) (cjk : bool) :
  tbl_hhea tt_font = Some hhea ->
  tbl_head tt_font = Some head ->
  is_cjk_font tt_font = Ok cjk ->
  int16 (ascent hhea) -> int16 (descent hhea) -> int16 (lineGap hhea) ->
  uint16 (unitsPerEm head) ->
  get_line_height_factor tt_font
  = if unitsPerEm head =? 0 then Raise ZeroDivisionError
    else Ok (PrimFloat.div
               (if cjk
                then PrimFloat.mul 1.3
                       (nearest_float (ascent hhea + Z.abs (descent hhea)))
                else nearest_float
                       (ascent hhea + Z.abs (descent hhea) + lineGap hhea))
               (nearest_float (unitsPerEm head))).
Proof.
  unfold int16, uint16. intros Hhhea Hhead Hcjk Ha Hd Hg Hu.
  unfold Fonts.get_line_height_factor. rewrite Hhhea, Hhead, Hcjk.
  cbn [getitem bind].
  destruct (float_of_small_int (ascent hhea + Z.abs (descent hhea))) as [Ht _];
    [lia|].
  destruct (float_of_small_int (ascent hhea + Z.abs (descent hhea) + lineGap hhea))
    as [Hb Hone]; [lia|].
  destruct (float_of_small_int (unitsPerEm head)) as [Hupm _]; [lia|].
  unfold float_div_int. rewrite Hupm. cbn [bind].
  destruct cjk.
  - rewrite Ht. reflexivity.
  - rewrite Hb. cbn [bind]. rewrite Hone. reflexivity.
Qed.

(** C5: with [total = ascent + |descent|] from [hhea], the factor of a font
    with [unitsPerEm] not zero is [(total + lineGap) / unitsPerEm] when the
    font is not CJK and [1.3 * total / unitsPerEm] when it is; the metrics
    880, -120, 0 and 1000 give 1.0 and 1.3. *)
Theorem get_line_height_factor_formula :
  forall (tt_font : TTFont) (hhea : table_hhea) (head : table_head) (cjk : bool),
    tbl_hhea tt_font = Some hhea ->
    tbl_head tt_font = Some head ->
    is_cjk_font tt_font = Ok cjk ->
    int16 (ascent hhea) -> int16 (descent hhea) -> int16 (lineGap hhea) ->
    uint16 (unitsPerEm head) ->
    unitsPerEm head <> 0 ->
    get_line_height_factor tt_font
    = Ok (if cjk
          then PrimFloat.div
                 (PrimFloat.mul 1.3
                    (nearest_float (ascent hhea + Z.abs (descent hhea))))
                 (nearest_float (unitsPerEm head))
          else PrimFloat.div
                 (nearest_float
                    (ascent hhea + Z.abs (descent hhea) + lineGap hhea))
                 (nearest_float (unitsPerEm head)))
    /\ (ascent hhea = 880 -> descent hhea = -120 -> lineGap hhea = 0 ->
        unitsPerEm head = 1000 ->
        get_line_height_factor tt_font
        = Ok (if cjk then 1.3%float else 1.0%float)).
Proof.
  intros tt_font hhea head cjk Hhhea Hhead Hcjk Ha Hd Hg Hu Hnz.
  rewrite (get_line_height_factor_run tt_font hhea head cjk) by assumption.
  apply Z.eqb_neq in Hnz. rewrite Hnz. split.
  - now destruct cjk.
  - intros -> -> -> ->. now destruct cjk.
Qed.

End LineHeightProperties.

Lemma get_line_height_factor_formula_witness :
  Fonts.get_line_height_factor
    example_CODEPAGE_BITS example_UNICODE_RANGE_BITS example_UNICODE_RANGES
    (example_font japanese_ranges 1000 (Some latin_cmap))
  = Ok 1.3%float.
Proof.
  apply (proj2 (get_line_height_factor_formula
                  example_CODEPAGE_BITS example_UNICODE_RANGE_BITS
                  example_UNICODE_RANGES
                  (example_font japanese_ranges 1000 (Some latin_cmap))
                  example_hhea {| unitsPerEm := 1000 |} true
                  eq_refl eq_refl eq_refl
                  ltac:(unfold int16; simpl; lia) ltac:(unfold int16; simpl; lia)
                  ltac:(unfold int16; simpl; lia) ltac:(unfold uint16; simpl; lia)
                  ltac:(simpl; lia)));
    reflexivity.
Defined.

(** The same metrics in a font that is not CJK. *)
Example get_line_height_factor_latin :
  Fonts.get_line_height_factor
    example_CODEPAGE_BITS example_UNICODE_RANGE_BITS example_UNICODE_RANGES
    (example_font no_ranges 1000 (Some latin_cmap))
  = Ok 1.0%float.
Proof.
  vm_compute. reflexivity.
Qed.

(** ** [Fonts.extract] *)

Section ExtractProperties.

Variable upper_char : N -> list N.
Variable CJK_CODEPAGE_BITS : list (str * N).
Variable CJK_UNICODE_RANGE_BITS : list (str * N).
Variable CJK_UNICODE_RANGES : list (Z * Z).
Variable DICT_FONT_LINE_HEIGHT : list (str * float).
Variable open_TTFont : bytes -> result TTFont.
Variable set_iter : list Z -> list Z.

Local Abbreviation default_fonts :=
  (Fonts.get_defult_fonts DICT_FONT_LINE_HEIGHT).
Local Abbreviation extract_one :=
  (Fonts.extract_one upper_char CJK_CODEPAGE_BITS CJK_UNICODE_RANGE_BITS
     CJK_UNICODE_RANGES open_TTFont default_fonts).
Local Abbreviation extract_loop :=
  (Fonts.extract_loop upper_char CJK_CODEPAGE_BITS CJK_UNICODE_RANGE_BITS
     CJK_UNICODE_RANGES open_TTFont default_fonts).
Local Abbreviation extract :=
  (Fonts.extract upper_char CJK_CODEPAGE_BITS CJK_UNICODE_RANGE_BITS
     CJK_UNICODE_RANGES DICT_FONT_LINE_HEIGHT open_TTFont set_iter).

Local Abbreviation fonts_of :=
  (appended upper_char CJK_CODEPAGE_BITS CJK_UNICODE_RANGE_BITS
     CJK_UNICODE_RANGES DICT_FONT_LINE_HEIGHT open_TTFont).

Lemma extract_loop_appended (doc : Document) (xrefs : list Z) :
  forall acc fonts,
    extract_loop doc xrefs acc = Ok fonts
    <-> exists fs, fonts_of doc xrefs fs /\ fonts = acc ++ fs.
Proof.
  unfold appended.
  induction xrefs as [|xref rest IH]; intros acc fonts; cbn [Fonts.extract_loop].
  - split.
    + intros [= <-]. exists []. split; [constructor|now rewrite app_nil_r].
    + intros (fs & Hfs & ->). inversion Hfs. now rewrite app_nil_r.
  - destruct (extract_one doc xref) as [font|e] eqn:E; cbn [bind].
    + rewrite IH. split.
      * intros (fs & Hfs & ->). exists (font :: fs).
        split; [now constructor|now rewrite <- app_assoc].
      * intros (fs & Hfs & ->). inversion Hfs as [|? f ? fs' Hf Hfs']; subst.
        rewrite E in Hf. injection Hf as <-.
        exists fs'. split; [assumption|now rewrite <- app_assoc].
    + split; [discriminate|].
      intros (fs & Hfs & _). inversion Hfs as [|? f ? fs' Hf Hfs']; subst.
      rewrite E in Hf. discriminate.
Qed.

Lemma extract_loop_raises (doc : Document) (xref : Z) (e : exn) :
  forall before after acc fs,
    fonts_of doc before fs ->
    extract_one doc xref = Raise e ->
    extract_loop doc (before ++ xref :: after) acc = Raise e.
Proof.
  unfold appended.
  induction before as [|x before IH]; intros after acc fs Hfs He;
    cbn [Fonts.extract_loop app].
  - now rewrite He.
  - inversion Hfs as [|? f ? fs' Hf Hfs']; subst. rewrite Hf. cbn [bind].
    now apply (IH after _ fs').
Qed.

Lemma extract_one_not_parsed (doc : Document) (xref : Z)
  (basename ext : str) (buffer : bytes) :
  extract_font doc xref = (basename, ext, buffer) ->
  open_TTFont buffer = Raise TTLibError ->
  extract_one doc xref
  = Ok (Fonts.get upper_char default_fonts (Fonts._normalized_font_name basename)).
Proof.
  intros Hfont Hopen. unfold Fonts.extract_one, Fonts.try_open.
  rewrite Hfont, Hopen. now destruct (Fonts.is_embedded ext).
Qed.

Lemma extract_appended (doc : Document) (fonts : list Font) :
  extract doc = Ok fonts
  <-> fonts_of doc (set_iter (List.concat (page_fonts doc))) fonts.
Proof.
  unfold Fonts.extract. rewrite extract_loop_appended.
  split; [intros (fs & Hfs & ->); exact Hfs|intros Hfs; now exists fonts].
Qed.

(** C2, amended: on a run of [extract] that returns, the fonts are in the
    collection in the order in which the loop processes the font references,
    the order in which the set of cross-references is iterated: font number
    i is the font made for reference number i of that order (and when every
    reference of that order can be processed, the run returns); when the
    order is A, B, C, the buffer of B is not a font (a [TTLibError]) and A
    and C are processed, the result is the font of A, the default-table font
    of B's normalized name, and the font of C. *)
Theorem extract_in_iteration_order :
  forall doc : Document,
    (forall fonts,
        extract doc = Ok fonts
        <-> fonts_of doc (set_iter (List.concat (page_fonts doc))) fonts)
    /\ (forall a b c font_a font_c basename ext buffer,
           set_iter (List.concat (page_fonts doc)) = [a; b; c] ->
           extract_one doc a = Ok font_a ->
           extract_font doc b = (basename, ext, buffer) ->
           open_TTFont buffer = Raise TTLibError ->
           extract_one doc c = Ok font_c ->
           extract doc
           = Ok [font_a;
                 Fonts.get upper_char default_fonts
                   (Fonts._normalized_font_name basename);
                 font_c]).
Proof.
  intros doc. split; [apply extract_appended|].
  intros a b c font_a font_c basename ext buffer Hiter Ha Hb Hopen Hc.
  apply extract_appended. rewrite Hiter. unfold appended.
  repeat constructor; try assumption.
  now apply (extract_one_not_parsed doc b basename ext buffer).
Qed.

(** When the iteration of a set yields each of its elements once, the fonts
    that [extract] returns are as many as the distinct cross-references. *)
Lemma extract_length (doc : Document) (fonts : list Font) :
  (forall l, List.NoDup (set_iter l)) ->
  (forall l x, In x (set_iter l) <-> In x l) ->
  extract doc = Ok fonts ->
  List.length fonts
  = List.length (List.nodup Z.eq_dec (List.concat (page_fonts doc))).
Proof.
  intros Hnodup Hin Hrun.
  apply extract_appended in Hrun.
  rewrite <- (Forall2_length Hrun).
  apply Permutation.Permutation_length, Permutation.NoDup_Permutation.
  - apply Hnodup.
  - apply List.NoDup_nodup.
  - intros x. rewrite Hin. symmetry. apply List.nodup_In.
Qed.

End ExtractProperties.

(** ** The examples run *)

(** C3: a font with all four tables and [unitsPerEm = 0] passes [_is_valid];
    its line-height factor is not computed but raises [ZeroDivisionError],
    and so does [extract] on a document that embeds it: the default table is
    not consulted. *)
Theorem zero_units_per_em_divides_by_zero :
  Fonts._is_valid (Some (example_font no_ranges 0 (Some latin_cmap))) = true
  /\ Fonts.get_line_height_factor
       example_CODEPAGE_BITS example_UNICODE_RANGE_BITS example_UNICODE_RANGES
       (example_font no_ranges 0 (Some latin_cmap))
     = Raise ZeroDivisionError
  /\ example_extract doc_zero_units = Raise ZeroDivisionError.
Proof.
  repeat split; vm_compute; reflexivity.
Qed.

(** C6: on a font without a Unicode character map and with no CJK bit in its
    OS/2 table, [is_cjk_font] does not return [False] but raises [TypeError];
    with a CJK code-page bit set it returns [True] without a look at the
    character map. *)
Theorem is_cjk_font_without_cmap :
  Fonts.is_cjk_font
    example_CODEPAGE_BITS example_UNICODE_RANGE_BITS example_UNICODE_RANGES
    (example_font no_ranges 1000 None)
  = Raise TypeError
  /\ Fonts.is_cjk_font
       example_CODEPAGE_BITS example_UNICODE_RANGE_BITS example_UNICODE_RANGES
       (example_font japanese_ranges 1000 None)
     = Ok true.
Proof.
  split; vm_compute; reflexivity.
Qed.

(** C1: [extract] on a document whose one embedded font has no Unicode
    character map raises [TypeError] and returns no collection. *)
Theorem extract_raises_on_font_without_cmap :
  example_extract doc_no_cmap = Raise TypeError.
Proof.
  vm_compute. reflexivity.
Qed.

(** C2, as stated, fails: font 5 is met before font 3, and the font of 3 is
    appended before the font of 5. *)
Lemma extract_not_in_first_observed_order :
  first_observed (List.concat (page_fonts doc_two_base_fonts)) = [5; 3]
  /\ example_extract_one doc_two_base_fonts 5
     = Ok {| name := u "Helvetica"; line_height := 1.15 |}
  /\ example_extract_one doc_two_base_fonts 3
     = Ok {| name := u "Courier"; line_height := 1.13 |}
  /\ example_extract doc_two_base_fonts
     = Ok [ {| name := u "Courier"; line_height := 1.13 |};
            {| name := u "Helvetica"; line_height := 1.15 |} ].
Proof.
  repeat split; vm_compute; reflexivity.
Qed.

(** Three fonts of which the second cannot be parsed: a font for each, the
    second from the default table. *)
Example extract_three_fonts :
  example_extract doc_three_fonts
  = Ok [ {| name := u "Calibri"; line_height := 1.0 |};
         {| name := u "Helvetica"; line_height := 1.15 |};
         {| name := u "Calibri"; line_height := 1.3 |} ].
Proof.
  vm_compute. reflexivity.
Qed.

(** * Part III: further properties of the module *)

(** ** [Fonts._normalized_font_name]: what is kept and what is left alone *)

(** X1: the normalized name is a contiguous part of the name given; it holds
    neither [+] nor [-]; and the names that normalization leaves as they are
    are exactly the names without [+] and [-]. *)
Theorem normalized_font_name_fixed_points :
  forall s : str,
    substring (Fonts._normalized_font_name s) s
    /\ ~ In PLUS (Fonts._normalized_font_name s)
    /\ ~ In DASH (Fonts._normalized_font_name s)
    /\ (Fonts._normalized_font_name s = s <-> ~ In PLUS s /\ ~ In DASH s).
Proof.
  intros s. split; [|split; [|split; [|split; [intros H; split|]]]].
  - rewrite normalized_font_name_eq.
    set (t := item_last (split PLUS s)).
    assert (Ht : substring (before_first DASH t) t).
    { destruct (before_first_split DASH t) as [[_ ->]|[post Hp]].
      - exists [], []. now rewrite app_nil_r.
      - exists [], (DASH :: post). exact Hp. }
    destruct Ht as (p1 & p2 & Ht).
    destruct (split_last_suffix PLUS s) as [[_ Hs]|[pre Hs]]; fold t in Hs.
    + exists p1, p2. now rewrite <- Ht.
    + exists (pre ++ PLUS :: p1), p2. rewrite Hs at 1. rewrite Ht at 1.
      now rewrite <- app_assoc.
  - apply normalized_font_name_no_plus.
  - apply normalized_font_name_no_dash.
  - rewrite <- H. apply normalized_font_name_no_plus.
  - rewrite <- H. apply normalized_font_name_no_dash.
  - intros [Hp Hd]. now apply normalized_font_name_fixed.
Qed.

(** ** [Fonts.get]: where the result comes from *)

Section GetResult.

Variable upper_char : N -> list N.

Local Abbreviation get := (Fonts.get upper_char).
Local Abbreviation normalized := (Fonts.normalized upper_char).
Local Abbreviation matches := (name_matches upper_char).

Lemma get_scan_cases (fonts : list Font) (q font_name : str) :
  (In (Fonts.get_scan upper_char fonts q font_name) fonts
   /\ matches q (Fonts.get_scan upper_char fonts q font_name))
  \/ (Fonts.get_scan upper_char fonts q font_name
      = {| name := font_name; line_height := 1.2 |}
      /\ Forall (fun g => ~ matches q g) fonts).
Proof.
  induction fonts as [|g fonts IH]; simpl.
  - right. split; [reflexivity|constructor].
  - destruct (_ || _) eqn:E.
    + left. split; [now left|]. now apply get_scan_cons_test.
    + destruct IH as [[Hin Hm]|[Heq Hnone]].
      * left. split; [now right|assumption].
      * right. split; [assumption|]. constructor; [|assumption].
        intros Hm. apply get_scan_cons_test in Hm. congruence.
Qed.

Lemma get_scan_same_query (fonts : list Font) (q name1 name2 : str) :
  Fonts.get_scan upper_char fonts q name1 = Fonts.get_scan upper_char fonts q name2
  \/ (Fonts.get_scan upper_char fonts q name1
      = {| name := name1; line_height := 1.2 |}
      /\ Fonts.get_scan upper_char fonts q name2
         = {| name := name2; line_height := 1.2 |}).
Proof.
  induction fonts as [|g fonts IH]; simpl.
  - right. now split.
  - destruct (_ || _); [now left|exact IH].
Qed.

(** X2: [get] never makes up a line height other than 1.2: its result is a
    font of the collection that matches the query, or, when no font of the
    collection matches, the font with the name asked for and line height
    1.2. *)
Theorem get_from_collection_or_default :
  forall (fonts : list Font) (font_name : str),
    (In (get fonts font_name) fonts
     /\ matches (normalized font_name) (get fonts font_name))
    \/ (get fonts font_name = {| name := font_name; line_height := 1.2 |}
        /\ Forall (fun g => ~ matches (normalized font_name) g) fonts).
Proof.
  intros fonts font_name. apply get_scan_cases.
Qed.

(** X3: looking up the name of a font of the collection never falls back to
    the default: the result is a font of the collection, and its normalized
    name contains the normalized name asked for or is contained in it. *)
Theorem get_own_name_in_collection :
  forall (fonts : list Font) (f : Font),
    In f fonts ->
    In (get fonts (name f)) fonts
    /\ matches (normalized (name f)) (get fonts (name f)).
Proof.
  intros fonts f Hin.
  destruct (get_scan_cases fonts (normalized (name f)) (name f))
    as [H|[_ Hnone]]; [exact H|].
  exfalso. rewrite Forall_forall in Hnone. apply (Hnone f Hin).
  left. exists [], []. now rewrite app_nil_r.
Qed.

(** X4: two queries with the same normalized form (the same text up to
    spaces and case) are answered alike: by the same font of the collection,
    or each by its own default font; the line height is the same. *)
Theorem get_same_normalized_query :
  forall (fonts : list Font) (q1 q2 : str),
    normalized q1 = normalized q2 ->
    line_height (get fonts q1) = line_height (get fonts q2)
    /\ (get fonts q1 = get fonts q2
        \/ (get fonts q1 = {| name := q1; line_height := 1.2 |}
            /\ get fonts q2 = {| name := q2; line_height := 1.2 |})).
Proof.
  intros fonts q1 q2 Hq. unfold Fonts.get. rewrite Hq.
  destruct (get_scan_same_query fonts (normalized q2) q1 q2) as [H|[H1 H2]].
  - rewrite H. split; [reflexivity|now left].
  - rewrite H1, H2. split; [reflexivity|right; now split].
Qed.

End GetResult.

Lemma get_own_name_in_collection_witness :
  In (Fonts.get ascii_upper_char [Arial; Calibri] (name Calibri)) [Arial; Calibri].
Proof.
  apply (get_own_name_in_collection ascii_upper_char [Arial; Calibri] Calibri).
  right. left. reflexivity.
Defined.

Lemma get_same_normalized_query_witness :
  line_height (Fonts.get ascii_upper_char [Arial; Calibri] (u "calibri bold"))
  = line_height (Fonts.get ascii_upper_char [Arial; Calibri] (u "Calibri Bold")).
Proof.
  apply (get_same_normalized_query ascii_upper_char [Arial; Calibri]
           (u "calibri bold") (u "Calibri Bold")).
  reflexivity.
Defined.

(** ** [Fonts.get_font_family_name]: records that cannot be decoded *)

Lemma decode_utf_16_be_odd (n : nat) :
  forall b : bytes,
    (List.length b <= n)%nat ->
    Nat.odd (List.length b) = true ->
    decode_utf_16_be b = Raise UnicodeDecodeError.
Proof.
  induction n as [|n IH]; intros b Hlen Hodd.
  - destruct b; [discriminate|simpl in Hlen; lia].
  - destruct b as [|b1 [|b2 rest]]; cbn [decode_utf_16_be];
      [discriminate|reflexivity|].
    change (Nat.odd (List.length rest) = true) in Hodd.
    destruct (is_low_surrogate (code_unit b1 b2)); [reflexivity|].
    destruct (is_high_surrogate (code_unit b1 b2)).
    + destruct rest as [|b3 [|b4 rest']]; [reflexivity|reflexivity|].
      destruct (is_low_surrogate (code_unit b3 b4)); [|reflexivity].
      rewrite (IH rest'); [reflexivity|simpl in Hlen; lia|exact Hodd].
    + rewrite (IH rest); [reflexivity|simpl in Hlen; lia|exact Hodd].
Qed.

Lemma scan_records_continue (pre post : list NameRecord) :
  forall (name family name' family' : str),
    Fonts.scan_records pre name family = Ok (name', family') ->
    Fonts.truthy_str name' && Fonts.truthy_str family' = false ->
    Fonts.scan_records (pre ++ post) name family
    = Fonts.scan_records post name' family'.
Proof.
  induction pre as [|record rest IH]; intros name family name' family' Hs Hb.
  - simpl in Hs. now injection Hs as <- <-.
  - simpl in *. destruct (Fonts.decode_record record) as [name_str|e]; [|discriminate].
    simpl in *.
    destruct (Fonts.record_step record name_str name family) as [name1 family1].
    destruct (Fonts.truthy_str name1 && Fonts.truthy_str family1) eqn:Eb.
    + injection Hs as <- <-. congruence.
    + now apply IH.
Qed.

(** X5: a record whose octets hold a zero and are odd in number cannot be
    decoded; when the scan reaches such a record, that is when the records
    before it did not yet give both a full name and a family name,
    [get_font_family_name] raises [UnicodeDecodeError], whatever the id of
    the record and whatever follows it. *)
Theorem get_font_family_name_undecodable_record :
  forall (tt_font : TTFont) (table : table_name)
         (pre post : list NameRecord) (record : NameRecord) (name family : str),
    tbl_name tt_font = Some table ->
    names table = pre ++ record :: post ->
    Fonts.scan_records pre [] [] = Ok (name, family) ->
    Fonts.truthy_str name && Fonts.truthy_str family = false ->
    In x00 (string_ record) ->
    Nat.odd (List.length (string_ record)) = true ->
    Fonts.get_font_family_name tt_font = Raise UnicodeDecodeError.
Proof.
  intros tt_font table pre post record name family Htable Hnames Hpre Hb Hz Hodd.
  unfold Fonts.get_font_family_name. rewrite Htable. cbn [getitem bind].
  rewrite Hnames, (scan_records_continue pre _ _ _ _ _ Hpre Hb).
  cbn [Fonts.scan_records]. unfold Fonts.decode_record.
  apply has_zero_byte_In in Hz. rewrite Hz.
  now rewrite (decode_utf_16_be_odd _ _ (Nat.le_refl _) Hodd).
Qed.

Lemma get_font_family_name_undecodable_record_witness :
  Fonts.get_font_family_name (font_of_names broken_names)
  = Raise UnicodeDecodeError.
Proof.
  apply (get_font_family_name_undecodable_record
           (font_of_names broken_names) broken_names
           (firstn 1 (names broken_names)) (skipn 2 (names broken_names))
           {| nameID := 6; string_ := [x00; x41; x00] |}
           (u "Calibri Bold") []).
  - reflexivity.
  - reflexivity.
  - reflexivity.
  - reflexivity.
  - simpl. left. reflexivity.
  - reflexivity.
Defined.

Lemma is_cjk_font_signals_witness :
  Fonts.is_cjk_font
    example_CODEPAGE_BITS example_UNICODE_RANGE_BITS example_UNICODE_RANGES
    (example_font japanese_ranges 1000 None)
  = Ok true.
Proof.
  apply (proj1 (proj2 (is_cjk_font_signals
                         example_CODEPAGE_BITS example_UNICODE_RANGE_BITS
                         example_UNICODE_RANGES
                         (example_font japanese_ranges 1000 None)
                         japanese_ranges 131072 eq_refl eq_refl))).
  left. exists (u "JIS/Japan"), 17%N, 131072. split; [now left|].
  split; [reflexivity|]. vm_compute. discriminate.
Defined.

(** An OS/2 table of version 0 has no code-page word to test: the first
    configured code-page bit raises [AttributeError]. *)
Example is_cjk_font_version_0 :
  Fonts.is_cjk_font
    example_CODEPAGE_BITS example_UNICODE_RANGE_BITS example_UNICODE_RANGES
    (example_font version_0_ranges 1000 (Some latin_cmap))
  = Raise AttributeError.
Proof.
  reflexivity.
Qed.

(** ** [Fonts.is_cjk_font]: what the result does not depend on *)

Lemma unicode_range_check_app (os2 : table_OS2) (bits1 bits2 : list (str * N)) :
  Fonts.unicode_range_check os2 (bits1 ++ bits2)
  = Fonts.unicode_range_check os2 bits1 || Fonts.unicode_range_check os2 bits2.
Proof.
  induction bits1 as [|[label b] bits1 IH]; [reflexivity|]. simpl.
  destruct (Fonts.unicode_range_bit os2 (Z.of_N b)); [reflexivity|exact IH].
Qed.

Lemma unicode_range_bit_out_of_band (os2 : table_OS2) (b : Z) :
  96 <= b -> Fonts.unicode_range_bit os2 b = false.
Proof.
  intros Hb. unfold Fonts.unicode_range_bit, Fonts.in_range.
  replace (b <? 32) with false by (symmetry; apply Z.ltb_ge; lia).
  replace (b <? 64) with false by (symmetry; apply Z.ltb_ge; lia).
  replace (b <? 96) with false by (symmetry; apply Z.ltb_ge; lia).
  now rewrite !andb_false_r.
Qed.

Section ClassifierIndependence.

Variable CJK_CODEPAGE_BITS : list (str * N).
Variable CJK_UNICODE_RANGES : list (Z * Z).

(** X8: a configured Unicode-range bit of 96 or more belongs to no range
    word and never fires: the result of [is_cjk_font] is the same with and
    without it. *)
Theorem is_cjk_font_bit_out_of_band :
  forall (bits1 bits2 : list (str * N)) (label : str) (b : N) (tt_font : TTFont),
    (96 <= b)%N ->
    Fonts.is_cjk_font CJK_CODEPAGE_BITS (bits1 ++ (label, b) :: bits2)
      CJK_UNICODE_RANGES tt_font
    = Fonts.is_cjk_font CJK_CODEPAGE_BITS (bits1 ++ bits2)
        CJK_UNICODE_RANGES tt_font.
Proof.
  intros bits1 bits2 label b tt_font Hb. unfold Fonts.is_cjk_font.
  destruct (tbl_OS2 tt_font) as [os2|]; [|reflexivity]. cbn [getitem bind].
  rewrite !unicode_range_check_app. cbn [Fonts.unicode_range_check].
  rewrite unicode_range_bit_out_of_band by lia. reflexivity.
Qed.

Variable CJK_UNICODE_RANGE_BITS : list (str * N).

(** X9: of the character map [is_cjk_font] reads only which code points of
    the configured ranges are keys: two fonts with the same OS/2 table whose
    character maps have the same keys inside the configured ranges are
    classified alike, whatever the glyph names and the other keys. *)
Theorem is_cjk_font_cmap_inside_ranges :
  forall (tt1 tt2 : TTFont) (d1 d2 : gmap Z str),
    tbl_OS2 tt1 = tbl_OS2 tt2 ->
    getBestCmap tt1 = Some d1 ->
    getBestCmap tt2 = Some d2 ->
    (forall lo hi x,
        In (lo, hi) CJK_UNICODE_RANGES -> lo <= x <= hi ->
        (is_Some (d1 !! x) <-> is_Some (d2 !! x))) ->
    Fonts.is_cjk_font CJK_CODEPAGE_BITS CJK_UNICODE_RANGE_BITS
      CJK_UNICODE_RANGES tt1
    = Fonts.is_cjk_font CJK_CODEPAGE_BITS CJK_UNICODE_RANGE_BITS
        CJK_UNICODE_RANGES tt2.
Proof.
  intros tt1 tt2 d1 d2 Hos2 Hd1 Hd2 Hkeys. unfold Fonts.is_cjk_font.
  rewrite Hos2, Hd1, Hd2.
  destruct (tbl_OS2 tt2) as [os2|]; [|reflexivity]. cbn [getitem bind].
  destruct (Fonts.code_page_check _ _) as [[|]|e]; [reflexivity| |reflexivity].
  cbn [bind].
  destruct (Fonts.unicode_range_check _ _); [reflexivity|].
  destruct (cmap_check_present d1 CJK_UNICODE_RANGES) as (hit1 & Hrun1 & Hhit1).
  destruct (cmap_check_present d2 CJK_UNICODE_RANGES) as (hit2 & Hrun2 & Hhit2).
  rewrite Hrun1, Hrun2. f_equal.
  assert (Hsig : cmap_signal CJK_UNICODE_RANGES (Some d1)
                 <-> cmap_signal CJK_UNICODE_RANGES (Some d2)).
  { unfold cmap_signal. split.
    - intros (d & lo & hi & x & [= <-] & Hin & Hx & Hs).
      exists d2, lo, hi, x. repeat split; try assumption; try lia.
      now apply (Hkeys lo hi x).
    - intros (d & lo & hi & x & [= <-] & Hin & Hx & Hs).
      exists d1, lo, hi, x. repeat split; try assumption; try lia.
      now apply (Hkeys lo hi x). }
  destruct hit1, hit2; try reflexivity.
  - symmetry. apply Hhit2, Hsig, Hhit1. reflexivity.
  - apply Hhit1, Hsig, Hhit2. reflexivity.
Qed.

End ClassifierIndependence.

Lemma is_cjk_font_bit_out_of_band_witness :
  Fonts.is_cjk_font example_CODEPAGE_BITS
    (example_UNICODE_RANGE_BITS ++ [(u "Reserved", 123%N)])
    example_UNICODE_RANGES
    (example_font reserved_ranges 1000 (Some latin_cmap))
  = Fonts.is_cjk_font example_CODEPAGE_BITS
      (example_UNICODE_RANGE_BITS ++ []) example_UNICODE_RANGES
      (example_font reserved_ranges 1000 (Some latin_cmap)).
Proof.
  apply (is_cjk_font_bit_out_of_band example_CODEPAGE_BITS example_UNICODE_RANGES
           example_UNICODE_RANGE_BITS [] (u "Reserved") 123%N
           (example_font reserved_ranges 1000 (Some latin_cmap))).
  lia.
Defined.

(** In that font no code-page bit is set, so the Unicode-range bits are
    tested, bit 123 among them, and none fires. *)
Example reserved_bit_is_tested :
  Fonts.code_page_check reserved_ranges example_CODEPAGE_BITS = Ok false
  /\ Fonts.unicode_range_check reserved_ranges
       (example_UNICODE_RANGE_BITS ++ [(u "Reserved", 123%N)]) = false
  /\ Fonts.is_cjk_font example_CODEPAGE_BITS
       (example_UNICODE_RANGE_BITS ++ [(u "Reserved", 123%N)])
       example_UNICODE_RANGES
       (example_font reserved_ranges 1000 (Some latin_cmap))
     = Ok false.
Proof.
  repeat split; vm_compute; reflexivity.
Qed.

Lemma is_cjk_font_cmap_inside_ranges_witness :
  Fonts.is_cjk_font example_CODEPAGE_BITS example_UNICODE_RANGE_BITS
    example_UNICODE_RANGES (example_font no_ranges 1000 (Some latin_cmap))
  = Fonts.is_cjk_font example_CODEPAGE_BITS example_UNICODE_RANGE_BITS
      example_UNICODE_RANGES (example_font no_ranges 1000 (Some other_latin_cmap)).
Proof.
  apply (is_cjk_font_cmap_inside_ranges example_CODEPAGE_BITS
           example_UNICODE_RANGES example_UNICODE_RANGE_BITS
           (example_font no_ranges 1000 (Some latin_cmap))
           (example_font no_ranges 1000 (Some other_latin_cmap))
           latin_cmap other_latin_cmap eq_refl eq_refl eq_refl).
  intros lo hi x Hin Hx.
  assert (Hlow : 4352 <= x).
  { simpl in Hin. destruct Hin as [[= <- <-]|[[= <- <-]|[[= <- <-]|[]]]]; lia. }
  unfold latin_cmap, other_latin_cmap.
  rewrite !lookup_singleton_ne by lia.
  split; intros [? H]; discriminate.
Defined.

(** ** [Fonts.get_line_height_factor]: the division and the metrics read *)

Section LineHeightFurther.

Variable CJK_CODEPAGE_BITS : list (str * N).
Variable CJK_UNICODE_RANGE_BITS : list (str * N).
Variable CJK_UNICODE_RANGES : list (Z * Z).

Local Abbreviation is_cjk_font :=
  (Fonts.is_cjk_font CJK_CODEPAGE_BITS CJK_UNICODE_RANGE_BITS CJK_UNICODE_RANGES).
Local Abbreviation get_line_height_factor :=
  (Fonts.get_line_height_factor
     CJK_CODEPAGE_BITS CJK_UNICODE_RANGE_BITS CJK_UNICODE_RANGES).

(** X10: for a font with metrics in the ranges of their fields and a CJK
    test that returns, [get_line_height_factor] raises [ZeroDivisionError]
    exactly when [unitsPerEm] is zero, and returns a factor otherwise. *)
Theorem get_line_height_factor_zero_division :
  forall (tt_font : TTFont) (hhea : table_hhea) (head : table_head) (cjk : bool),
    tbl_hhea tt_font = Some hhea ->
    tbl_head tt_font = Some head ->
    is_cjk_font tt_font = Ok cjk ->
    int16 (ascent hhea) -> int16 (descent hhea) -> int16 (lineGap hhea) ->
    uint16 (unitsPerEm head) ->
    (get_line_height_factor tt_font = Raise ZeroDivisionError
     <-> unitsPerEm head = 0)
    /\ (unitsPerEm head <> 0 -> returns (get_line_height_factor tt_font)).
Proof.
  intros tt_font hhea head cjk Hhhea Hhead Hcjk Ha Hd Hg Hu.
  rewrite (get_line_height_factor_run _ _ _ tt_font hhea head cjk) by assumption.
  destruct (Z.eqb_spec (unitsPerEm head) 0) as [Hz|Hnz].
  - split; [tauto|contradiction].
  - split; [split; [discriminate|contradiction]|].
    intros _. eexists. reflexivity.
Qed.

(** X11: the factor reads the descent through its absolute value only, and
    for a CJK font it does not read the line gap: two fonts with the same
    head and OS/2 tables, the same character map, the same ascent and
    descents of the same size get the same factor when they are CJK, and
    also when they are not if their line gaps are equal. *)
Theorem get_line_height_factor_metrics_read :
  forall (tt1 tt2 : TTFont) (hhea1 hhea2 : table_hhea) (cjk : bool),
    tbl_hhea tt1 = Some hhea1 ->
    tbl_hhea tt2 = Some hhea2 ->
    tbl_head tt1 = tbl_head tt2 ->
    tbl_OS2 tt1 = tbl_OS2 tt2 ->
    getBestCmap tt1 = getBestCmap tt2 ->
    ascent hhea1 = ascent hhea2 ->
    Z.abs (descent hhea1) = Z.abs (descent hhea2) ->
    is_cjk_font tt1 = Ok cjk ->
    (cjk = false -> lineGap hhea1 = lineGap hhea2) ->
    get_line_height_factor tt1 = get_line_height_factor tt2.
Proof.
  intros tt1 tt2 hhea1 hhea2 cjk Hh1 Hh2 Hhead Hos2 Hcmap Ha Hd Hcjk Hgap.
  assert (Hcjk2 : is_cjk_font tt2 = Ok cjk).
  { rewrite <- Hcjk. unfold Fonts.is_cjk_font. now rewrite Hos2, Hcmap. }
  unfold Fonts.get_line_height_factor.
  rewrite Hh1, Hh2, Hhead, Hcjk, Hcjk2. cbn [getitem bind].
  destruct (tbl_head tt2) as [head|]; [|reflexivity]. cbn [bind].
  rewrite Ha, Hd. destruct cjk; [reflexivity|].
  now rewrite (Hgap eq_refl).
Qed.

End LineHeightFurther.

Lemma get_line_height_factor_zero_division_witness :
  Fonts.get_line_height_factor
    example_CODEPAGE_BITS example_UNICODE_RANGE_BITS example_UNICODE_RANGES
    (example_font no_ranges 0 (Some latin_cmap))
  = Raise ZeroDivisionError.
Proof.
  apply (proj1 (get_line_height_factor_zero_division
                  example_CODEPAGE_BITS example_UNICODE_RANGE_BITS
                  example_UNICODE_RANGES
                  (example_font no_ranges 0 (Some latin_cmap))
                  example_hhea {| unitsPerEm := 0 |} false
                  eq_refl eq_refl eq_refl
                  ltac:(unfold int16; simpl; lia) ltac:(unfold int16; simpl; lia)
                  ltac:(unfold int16; simpl; lia)
                  ltac:(unfold uint16; simpl; lia))).
  reflexivity.
Defined.

Lemma get_line_height_factor_metrics_read_witness :
  Fonts.get_line_height_factor
    example_CODEPAGE_BITS example_UNICODE_RANGE_BITS example_UNICODE_RANGES
    mincho
  = Fonts.get_line_height_factor
      example_CODEPAGE_BITS example_UNICODE_RANGE_BITS example_UNICODE_RANGES
      mincho_gap.
Proof.
  apply (get_line_height_factor_metrics_read
           example_CODEPAGE_BITS example_UNICODE_RANGE_BITS
           example_UNICODE_RANGES mincho mincho_gap
           example_hhea {| ascent := 880; descent := 120; lineGap := 90 |} true
           eq_refl eq_refl eq_refl eq_refl eq_refl eq_refl eq_refl eq_refl).
  discriminate.
Defined.

(** ** [Fonts.extract]: fall-back, failure and the number of fonts *)

Section ExtractFurther.

Variable upper_char : N -> list N.
Variable CJK_CODEPAGE_BITS : list (str * N).
Variable CJK_UNICODE_RANGE_BITS : list (str * N).
Variable CJK_UNICODE_RANGES : list (Z * Z).
Variable DICT_FONT_LINE_HEIGHT : list (str * float).
Variable open_TTFont : bytes -> result TTFont.
Variable set_iter : list Z -> list Z.

Local Abbreviation default_fonts :=
  (Fonts.get_defult_fonts DICT_FONT_LINE_HEIGHT).
Local Abbreviation extract_one :=
  (Fonts.extract_one upper_char CJK_CODEPAGE_BITS CJK_UNICODE_RANGE_BITS
     CJK_UNICODE_RANGES open_TTFont default_fonts).
Local Abbreviation extract :=
  (Fonts.extract upper_char CJK_CODEPAGE_BITS CJK_UNICODE_RANGE_BITS
     CJK_UNICODE_RANGES DICT_FONT_LINE_HEIGHT open_TTFont set_iter).
Local Abbreviation fonts_of :=
  (appended upper_char CJK_CODEPAGE_BITS CJK_UNICODE_RANGE_BITS
     CJK_UNICODE_RANGES DICT_FONT_LINE_HEIGHT open_TTFont).

Local Abbreviation default_font :=
  (default_font upper_char DICT_FONT_LINE_HEIGHT).

Lemma extract_one_fallback (doc : Document) (xref : Z) :
  is_fallback open_TTFont doc xref ->
  extract_one doc xref = Ok (default_font doc xref).
Proof.
  unfold is_fallback, Fonts.extract_one, Fonts.try_open.
  unfold default_font.
  destruct (extract_font doc xref) as [[basename ext] buffer]. cbn [fst snd].
  intros [Hext|[Hopen|(tt_font & Hopen & Hinvalid)]].
  - subst ext. reflexivity.
  - rewrite Hopen. now destruct (Fonts.is_embedded ext).
  - rewrite Hopen. cbn [bind]. rewrite Hinvalid.
    now destruct (Fonts.is_embedded ext).
Qed.

(** X12: when every font reference is a base font ([ext] is [n/a]), or has
    a buffer that is not a font ([TTLibError]), or parses to a font that lacks
    one of the four tables, [extract] does not raise and every font comes
    from [get] on the default table with the normalized base name. *)
Theorem extract_all_from_default_table :
  forall doc : Document,
    (forall xref,
        In xref (set_iter (List.concat (page_fonts doc))) ->
        is_fallback open_TTFont doc xref) ->
    extract doc
    = Ok (List.map (default_font doc) (set_iter (List.concat (page_fonts doc)))).
Proof.
  intros doc Hall. apply extract_appended. unfold appended.
  induction (set_iter (List.concat (page_fonts doc))) as [|xref rest IH];
    [constructor|].
  cbn [List.map]. constructor.
  - apply extract_one_fallback, Hall. now left.
  - apply IH. intros x Hx. apply Hall. now right.
Qed.

(** X13: [extract] keeps no partial result: when the references before
    [xref] in the iteration order are processed and [xref] raises, [extract]
    raises the same exception, whatever comes after. *)
Theorem extract_first_failure :
  forall (doc : Document) (before after : list Z) (xref : Z)
         (fonts : list Font) (e : exn),
    set_iter (List.concat (page_fonts doc)) = before ++ xref :: after ->
    fonts_of doc before fonts ->
    extract_one doc xref = Raise e ->
    extract doc = Raise e.
Proof.
  intros doc before after xref fonts e Hiter Hbefore Hraise.
  unfold Fonts.extract. rewrite Hiter.
  now apply (extract_loop_raises _ _ _ _ _ _ doc xref e before after [] fonts).
Qed.

(** X14: when the iteration of the set of cross-references yields each of
    them once, a run of [extract] that returns gives as many fonts as the
    pages show distinct cross-references. *)
Theorem extract_one_font_per_reference :
  forall (doc : Document) (fonts : list Font),
    List.NoDup (set_iter (List.concat (page_fonts doc))) ->
    (forall x, In x (set_iter (List.concat (page_fonts doc)))
               <-> In x (List.concat (page_fonts doc))) ->
    extract doc = Ok fonts ->
    List.length fonts
    = List.length (List.nodup Z.eq_dec (List.concat (page_fonts doc))).
Proof.
  intros doc fonts Hnodup Hin Hrun.
  apply extract_appended in Hrun.
  rewrite <- (Forall2_length Hrun).
  apply Permutation.Permutation_length, Permutation.NoDup_Permutation.
  - exact Hnodup.
  - apply List.NoDup_nodup.
  - intros x. rewrite Hin. symmetry. apply List.nodup_In.
Qed.

End ExtractFurther.

Lemma extract_all_from_default_table_witness :
  example_extract doc_two_base_fonts
  = Ok (List.map
          (default_font ascii_upper_char example_FONT_LINE_HEIGHT
             doc_two_base_fonts)
          (small_set_iter (List.concat (page_fonts doc_two_base_fonts)))).
Proof.
  unfold example_extract.
  apply (extract_all_from_default_table ascii_upper_char example_CODEPAGE_BITS
           example_UNICODE_RANGE_BITS example_UNICODE_RANGES
           example_FONT_LINE_HEIGHT example_open small_set_iter
           doc_two_base_fonts).
  intros xref Hin. left. vm_compute in Hin.
  destruct Hin as [<-|[<-|[]]]; reflexivity.
Defined.

Lemma extract_first_failure_witness :
  example_extract doc_second_broken = Raise ZeroDivisionError.
Proof.
  unfold example_extract.
  apply (extract_first_failure ascii_upper_char example_CODEPAGE_BITS
           example_UNICODE_RANGE_BITS example_UNICODE_RANGES
           example_FONT_LINE_HEIGHT example_open small_set_iter
           doc_second_broken [2] [5] 3
           [ {| name := u "Calibri"; line_height := 1.0 |} ]
           ZeroDivisionError).
  - reflexivity.
  - constructor; [vm_compute; reflexivity|constructor].
  - vm_compute. reflexivity.
Defined.

Lemma extract_one_font_per_reference_witness :
  List.length [ {| name := u "Courier"; line_height := 1.13 |};
                {| name := u "Helvetica"; line_height := 1.15 |} ]
  = List.length
      (List.nodup Z.eq_dec (List.concat (page_fonts doc_two_base_fonts))).
Proof.
  apply (extract_one_font_per_reference ascii_upper_char example_CODEPAGE_BITS
           example_UNICODE_RANGE_BITS example_UNICODE_RANGES
           example_FONT_LINE_HEIGHT example_open small_set_iter
           doc_two_base_fonts).
  - vm_compute. repeat constructor; simpl; intuition discriminate.
  - intros x. vm_compute. tauto.
  - vm_compute. reflexivity.
Defined.

(** ** [Fonts.get] on a collection in two parts, and on the default table *)

Section GetComposition.

Variable upper_char : N -> list N.

Local Abbreviation get := (Fonts.get upper_char).
Local Abbreviation normalized := (Fonts.normalized upper_char).
Local Abbreviation matches := (name_matches upper_char).

Lemma get_scan_app_found (l1 l2 : list Font) (q font_name : str) :
  Exists (matches q) l1 ->
  Fonts.get_scan upper_char (l1 ++ l2) q font_name
  = Fonts.get_scan upper_char l1 q font_name.
Proof.
  induction l1 as [|g l1 IH]; intros Hex; [inversion Hex|]. simpl.
  destruct (_ || _) eqn:E; [reflexivity|].
  apply IH. inversion Hex as [? ? Hg|? ? Hrest]; subst; [|assumption].
  apply get_scan_cons_test in Hg. congruence.
Qed.

Lemma get_scan_app_not_found (l1 l2 : list Font) (q font_name : str) :
  Forall (fun g => ~ matches q g) l1 ->
  Fonts.get_scan upper_char (l1 ++ l2) q font_name
  = Fonts.get_scan upper_char l2 q font_name.
Proof.
  induction 1 as [|g l1 Hg _ IH]; [reflexivity|]. simpl.
  destruct (_ || _) eqn:E; [|exact IH].
  apply get_scan_cons_test in E. contradiction.
Qed.

(** X15: fonts added at the end of a collection never shadow the fonts
    before them: on [l1 ++ l2], [get] answers as on [l1] when a font of [l1]
    matches the query, and as on [l2] when none does. *)
Theorem get_app :
  forall (l1 l2 : list Font) (font_name : str),
    (Exists (matches (normalized font_name)) l1 ->
     get (l1 ++ l2) font_name = get l1 font_name)
    /\ (Forall (fun g => ~ matches (normalized font_name) g) l1 ->
        get (l1 ++ l2) font_name = get l2 font_name).
Proof.
  intros l1 l2 font_name. unfold Fonts.get. split.
  - apply get_scan_app_found.
  - apply get_scan_app_not_found.
Qed.

Variable CJK_CODEPAGE_BITS : list (str * N).
Variable CJK_UNICODE_RANGE_BITS : list (str * N).
Variable CJK_UNICODE_RANGES : list (Z * Z).
Variable DICT_FONT_LINE_HEIGHT : list (str * float).
Variable open_TTFont : bytes -> result TTFont.

(** X16: a base font whose normalized base name is a name of the default
    table is given a font of that table, with a line height of the table:
    the line height 1.2 of an unknown name is not used for it. *)
Theorem extract_one_base_font_in_table :
  forall (doc : Document) (xref : Z) (basename : str) (buffer : bytes),
    extract_font doc xref = (basename, u "n/a", buffer) ->
    In (Fonts._normalized_font_name basename)
       (List.map fst DICT_FONT_LINE_HEIGHT) ->
    exists font,
      Fonts.extract_one upper_char CJK_CODEPAGE_BITS CJK_UNICODE_RANGE_BITS
        CJK_UNICODE_RANGES open_TTFont
        (Fonts.get_defult_fonts DICT_FONT_LINE_HEIGHT) doc xref
      = Ok font
      /\ In font (Fonts.get_defult_fonts DICT_FONT_LINE_HEIGHT)
      /\ In (line_height font) (List.map snd DICT_FONT_LINE_HEIGHT).
Proof.
  intros doc xref basename buffer Hfont Hkey.
  unfold Fonts.extract_one. rewrite Hfont. cbn [Fonts.is_embedded].
  eexists. split; [reflexivity|].
  set (q := Fonts._normalized_font_name basename) in *.
  assert (Hin : In (get (Fonts.get_defult_fonts DICT_FONT_LINE_HEIGHT) q)
                   (Fonts.get_defult_fonts DICT_FONT_LINE_HEIGHT)).
  { destruct (get_scan_cases upper_char
                (Fonts.get_defult_fonts DICT_FONT_LINE_HEIGHT)
                (normalized q) q) as [[H _]|[_ Hnone]]; [exact H|].
    exfalso. apply in_map_iff in Hkey as ([n h] & Hn & Hitem).
    simpl in Hn. subst n. rewrite Forall_forall in Hnone.
    apply (Hnone {| name := q; line_height := h |}).
    - unfold Fonts.get_defult_fonts. apply in_map_iff.
      now exists (q, h).
    - left. exists [], []. simpl. now rewrite app_nil_r. }
  split; [exact Hin|].
  unfold Fonts.get_defult_fonts in Hin at 2.
  apply in_map_iff in Hin as (item & Hitem & Hin').
  apply in_map_iff. exists item. split; [|exact Hin'].
  now rewrite <- Hitem.
Qed.

End GetComposition.

Lemma extract_one_base_font_in_table_witness :
  exists font,
    example_extract_one doc_two_base_fonts 5 = Ok font
    /\ In font (Fonts.get_defult_fonts example_FONT_LINE_HEIGHT)
    /\ In (line_height font) (List.map snd example_FONT_LINE_HEIGHT).
Proof.
  unfold example_extract_one.
  apply (extract_one_base_font_in_table ascii_upper_char example_CODEPAGE_BITS
           example_UNICODE_RANGE_BITS example_UNICODE_RANGES
           example_FONT_LINE_HEIGHT example_open
           doc_two_base_fonts 5 (u "Helvetica-Bold") []).
  - reflexivity.
  - vm_compute. right. left. reflexivity.
Defined.
